(** * FastbuildAI console server

    A shallow embedding of the request handlers of the console server
    (user administration, login settings, payment configuration lookup,
    application restart) and of the chat front end's date-grouping helper,
    together with the properties the specification states about them.

    Entities are JavaScript objects, modelled as finite maps from field
    names to values.  Handlers are [async] methods that read and write the
    data store and may throw an HTTP exception: they are modelled in a small
    state-and-error monad over the state of the collaborating services. *)

From Stdlib Require Import ZArith Lia Ascii String DecimalString DecimalPos.
From stdpp Require Import gmap strings list sorting.

Open Scope string_scope.
Open Scope Z_scope.
Open Scope list_scope.

(** ** JavaScript values and objects *)

Inductive Value :=
  | VNull
  | VBool (b : bool)
  | VNum (n : Z)
  | VStr (s : string).

Global Instance Value_eq_dec : EqDecision Value.
Proof. solve_decision. Defined.

(** An entity or a DTO: a JavaScript object used as a map of fields. *)
Abbreviation Obj := (gmap string Value).

(** A JavaScript number restricted to the integers the handlers compute
    with; [None] is [NaN]. *)
Abbreviation JsNum := (option Z).

(** [Number.prototype.toString] on an integer. *)
Definition Z_toString (z : Z) : string := NilZero.string_of_int (Z.to_int z).

Definition JsNum_toString (n : JsNum) : string :=
  match n with
  | Some z => Z_toString z
  | None => "NaN"
  end.

(** String conversion as performed by template literals and [Array.join]
    on a field that may be absent ([undefined]). *)
Definition templateString (v : option Value) : string :=
  match v with
  | None => "undefined"
  | Some VNull => "null"
  | Some (VBool true) => "true"
  | Some (VBool false) => "false"
  | Some (VNum n) => Z_toString n
  | Some (VStr s) => s
  end.

(** [Array.prototype.join]: [null] and [undefined] elements print as the
    empty string. *)
Definition joinItem (v : option Value) : string :=
  match v with
  | None | Some VNull => ""
  | _ => templateString v
  end.

Fixpoint join (sep : string) (xs : list string) : string :=
  match xs with
  | [] => ""
  | [x] => x
  | x :: rest => x +:+ sep +:+ join sep rest
  end.

(** ** [parseInt] and [String.prototype.trim] *)

(** White space as far as the ASCII range goes: space, tab, line feed,
    vertical tab, form feed, carriage return. *)
Definition isWhitespace (c : ascii) : bool :=
  let n := nat_of_ascii c in
  (n =? 32)%nat || ((9 <=? n)%nat && (n <=? 13)%nat).

Fixpoint trimStart (s : string) : string :=
  match s with
  | String c rest => if isWhitespace c then trimStart rest else s
  | EmptyString => EmptyString
  end.

Fixpoint trimEnd (s : string) : string :=
  match s with
  | String c rest =>
      match trimEnd rest with
      | EmptyString => if isWhitespace c then EmptyString else String c EmptyString
      | rest' => String c rest'
      end
  | EmptyString => EmptyString
  end.

Definition trim (s : string) : string := trimEnd (trimStart s).

(** The value of a character as a digit: 0-9, then a-z or A-Z for 10-35. *)
Definition digitValue (c : ascii) : option Z :=
  let n := Z.of_nat (nat_of_ascii c) in
  if (48 <=? n) && (n <=? 57) then Some (n - 48)
  else if (97 <=? n) && (n <=? 122) then Some (n - 87)
  else if (65 <=? n) && (n <=? 90) then Some (n - 55)
  else None.

(** The longest prefix of digits below the radix, read as a number; [acc]
    is [None] as long as no digit has been read. *)
Fixpoint parseDigits (radix : Z) (s : string) (acc : JsNum) : JsNum :=
  match s with
  | String c rest =>
      match digitValue c with
      | Some d =>
          if d <? radix
          then parseDigits radix rest (Some (default 0 acc * radix + d))
          else acc
      | None => acc
      end
  | EmptyString => acc
  end.

Definition stripHexPrefix (s : string) : option string :=
  match s with
  | String "0"%char (String "x"%char rest)
  | String "0"%char (String "X"%char rest) => Some rest
  | _ => None
  end.

(** [parseInt(s, radix)]; radix 0 stands for an omitted radix. *)
Definition parseInt (s : string) (radix : Z) : JsNum :=
  let s := trimStart s in
  let '(sign, s) :=
    match s with
    | String "-"%char rest => (-1, rest)
    | String "+"%char rest => (1, rest)
    | _ => (1, s)
    end in
  if negb (radix =? 0) && ((radix <? 2) || (36 <? radix)) then None
  else
    let '(radix, s) :=
      match (if (radix =? 0) || (radix =? 16) then stripHexPrefix s else None) with
      | Some rest => (16, rest)
      | None => (if radix =? 0 then 10 else radix, s)
      end in
    (λ n, sign * n) <$> parseDigits radix s None.

(** [needle] occurs in [text]. *)
Definition occursIn (needle text : string) : Prop :=
  ∃ before after, text = before +:+ needle +:+ after.

(** ** HTTP exceptions *)

(** Modelled from the spec: [HttpExceptionFactory] is not part of the
    sources at hand.  Section 7 of the specification gives the taxonomy:
    a missing target is a [NotFoundError], a root-protection violation an
    [AuthorizationError], malformed input a [ValidationError]; each carries
    a message describing the cause. *)
Inductive ErrorKind := NotFoundError | AuthorizationError | ValidationError.

Global Instance ErrorKind_eq_dec : EqDecision ErrorKind.
Proof. solve_decision. Defined.

Record HttpException := mkHttpException { kind : ErrorKind; message : string }.

Global Instance HttpException_eq_dec : EqDecision HttpException.
Proof. solve_decision. Defined.

Module HttpExceptionFactory.
Definition notFound (msg : string) := mkHttpException NotFoundError msg.
Definition unauthorized (msg : string) := mkHttpException AuthorizationError msg.
Definition paramError (msg : string) := mkHttpException ValidationError msg.
End HttpExceptionFactory.

Inductive Result (A : Type) :=
  | Ok (a : A)
  | Err (e : HttpException).
Arguments Ok {A} a.
Arguments Err {A} e.

(** Modelled from the spec: [isEnabled] of [@common/utils/is.util] and the
    [BooleanNumber] constants are not part of the sources at hand.  The
    specification describes [isRoot] and [isEnable] as boolean flags stored
    as 0/1; a flag is enabled when it holds [BooleanNumber.YES], that is 1
    (or the boolean [true]). *)
Definition BooleanNumber_YES : Z := 1.
Definition BooleanNumber_NO : Z := 0.

Definition isEnabled (v : option Value) : bool :=
  match v with
  | Some (VNum n) => bool_decide (n = BooleanNumber_YES)
  | Some (VBool b) => b
  | _ => false
  end.

(** ** Rows of a table *)

(** [repository.findOne({ where })]: the first row satisfying the
    condition. *)
Definition findOneBy {A} (p : A → bool) (rows : list A) : option A :=
  List.find p rows.

Definition hasId (id : string) (o : Obj) : bool :=
  bool_decide (o !! "id" = Some (VStr id)).

(** The projection of an entity without the fields named in
    [excludeFields]. *)
Definition excludeFields (names : list string) (o : Obj) : Obj :=
  foldr delete o names.

(** * User administration ([UserController]) *)

Module UserController.

(** The caller identity injected by [@Playground()]. *)
Record UserPlayground := mkUserPlayground { playgroundId : string }.

(** The login-settings object stored by the dictionary service. *)
Record LoginSettingsConfig := mkLoginSettingsConfig {
  allowedLoginMethods : option (list Value);
  allowedRegisterMethods : option (list Value);
  defaultLoginMethod : option Value;
  allowMultipleLogin : bool;
  showPolicyAgreement : bool
}.

(** The state of the services a handler talks to: the user table, the
    permission cache with the invalidation requests it has received, the
    controller's warning log, the number of credentials drawn from the
    random source, and the dictionary entry [auth/login_settings]. *)
Record World := mkWorld {
  users : list Obj;
  permCache : gmap string (list string);
  cacheCalls : list string;
  warnings : list string;
  randomUsed : nat;
  loginSettings : option LoginSettingsConfig
}.

Definition set_users (f : list Obj → list Obj) (w : World) : World :=
  mkWorld (f (users w)) (permCache w) (cacheCalls w) (warnings w)
          (randomUsed w) (loginSettings w).

(** ** The handler monad *)

Definition M (A : Type) : Type := World → Result A * World.

Definition ret {A} (a : A) : M A := λ w, (Ok a, w).

Definition throw {A} (e : HttpException) : M A := λ w, (Err e, w).

Definition bind {A B} (c : M A) (k : A → M B) : M B :=
  λ w, match c w with
       | (Ok a, w') => k a w'
       | (Err e, w') => (Err e, w')
       end.

Notation "x <~ c ;; k" := (bind c (λ x, k))
  (at level 100, c at next level, right associativity).

(** ** [UserService] (inherited from [BaseService]) *)

Definition findOne (p : Obj → bool) : M (option Obj) :=
  λ w, (Ok (findOneBy p (users w)), w).

(** [findAll({ where })]: every row satisfying the condition, in table
    order. *)
Definition findAll (p : Obj → bool) : M (list Obj) :=
  λ w, (Ok (List.filter p (users w)), w).

(** Modelled from the spec: [BaseService.findOneById] is not part of the
    sources at hand.  It loads the row with the given id and returns its
    projection without the fields listed in [excludeFields]; the [role]
    relation it can load is not represented. *)
Definition service_findOneById (id : string) (exclude : list string)
  : M (option Obj) :=
  λ w, (Ok (excludeFields exclude <$> findOneBy (hasId id) (users w)), w).

(** Modelled from the spec: [BaseService.updateById] is not part of the
    sources at hand.  It loads the target (absent: [NotFoundError]),
    applies the patch fields over the stored ones, persists the row and
    returns the updated projection without the excluded fields. *)
Definition applyPatch (id : string) (dto : Obj) (rows : list Obj) : list Obj :=
  (λ row, if hasId id row then dto ∪ row else row) <$> rows.

Definition updateById (id : string) (dto : Obj) (exclude : list string) : M Obj :=
  λ w, match findOneBy (hasId id) (users w) with
       | None => (Err (HttpExceptionFactory.notFound "user not found"), w)
       | Some row =>
           (Ok (excludeFields exclude (dto ∪ row)), set_users (applyPatch id dto) w)
       end.

(** Modelled from the spec: [BaseService.delete] and [deleteMany] are not
    part of the sources at hand.  They delete the rows with the given
    id(s) from the store and return the success indicator. *)
Definition service_delete (id : string) : M bool :=
  λ w, (Ok true, set_users (List.filter (λ row, negb (hasId id row))) w).

Definition idIn (ids : list string) (o : Obj) : bool :=
  existsb (λ id, hasId id o) ids.

Definition deleteMany (ids : list string) : M bool :=
  λ w, (Ok true, set_users (List.filter (λ row, negb (idIn ids row))) w).

Section Handlers.

(** [RolePermissionService.clearUserCache] is outside the sources at
    hand: it is a parameter.  Given the user id and the cache it returns
    the new cache and, when the returned promise rejects, the message of
    the rejection. *)
Variable clearUserCache :
  string → gmap string (list string) → gmap string (list string) * option string.

(** The statement
    [clearUserCache(id).catch((e) => this.logger?.warn?.(...))]:
    the request is issued, its promise is not awaited, and a rejection
    ends in the warning log. *)
Definition clearUserCache_caught (id : string) : M unit :=
  λ w, let '(cache, outcome) := clearUserCache id (permCache w) in
       (Ok tt,
        mkWorld (users w) cache (cacheCalls w ++ [id])
                (match outcome with
                 | Some msg => warnings w ++ ["清理用户缓存失败: " +:+ msg]
                 | None => warnings w
                 end)
                (randomUsed w) (loginSettings w)).

Definition update (id : string) (updateUserDto : Obj)
    (currentUser : UserPlayground) : M Obj :=
  user <~ findOne (hasId id) ;;
  match user with
  | None => throw (HttpExceptionFactory.notFound "用户不存在")
  | Some user =>
      result <~ (if isEnabled (user !! "isRoot") then
                   if negb (String.eqb (playgroundId currentUser) id)
                   then throw (HttpExceptionFactory.unauthorized "暂无权限")
                   else updateById id updateUserDto ["password"]
                 else updateById id updateUserDto ["password"]) ;;
      _ <~ clearUserCache_caught id ;;
      ret result
  end.

End Handlers.

(** [remove]: the result object [{ success }] is represented by its only
    field. *)
Definition remove (id : string) : M bool :=
  user <~ findOne (hasId id) ;;
  match user with
  | Some user =>
      if isEnabled (user !! "isRoot")
      then throw (HttpExceptionFactory.unauthorized "暂无权限")
      else service_delete id
  | None => throw (HttpExceptionFactory.notFound "用户不存在")
  end.

Definition batchRemove (ids : list string) : M bool :=
  users <~ findAll (idIn ids) ;;
  let rootUsers := List.filter (λ user, isEnabled (user !! "isRoot")) users in
  if bool_decide (0 < length rootUsers)%nat then
    let rootUserIds := (λ user : Obj, user !! "id") <$> rootUsers in
    throw (HttpExceptionFactory.unauthorized
             ("超级管理员不可删除: " +:+ join ", " (joinItem <$> rootUserIds)))
  else deleteMany ids.

(** ** Reading users *)

Section Reads.

(** [RolePermissionService.getUserPermissions] and
    [MenuService.getMenuTreeByPermissions] are outside the sources at
    hand: they are parameters. *)
Variable getUserPermissions : string → list string.
Variable Menu : Type.
Variable getMenuTreeByPermissions : list string → Menu.

Record UserInfo := mkUserInfo {
  info_user : Obj;
  info_permissions : list string;
  info_menus : Menu
}.

Definition getUserInfo (user : UserPlayground) : M UserInfo :=
  userInfo <~ service_findOneById (playgroundId user) ["password"] ;;
  match userInfo with
  | None => throw (HttpExceptionFactory.notFound "用户不存在")
  | Some userInfo =>
      let permissionCodes := getUserPermissions (playgroundId user) in
      let menuTree :=
        getMenuTreeByPermissions
          (if isEnabled (userInfo !! "isRoot") then [] else permissionCodes) in
      ret (mkUserInfo
             (<["permissions" :=
                  VNum (if isEnabled (userInfo !! "isRoot")
                           || bool_decide (0 < length permissionCodes)%nat
                        then 1 else 0)]> userInfo)
             permissionCodes menuTree)
  end.

End Reads.

Arguments mkUserInfo {Menu}.
Arguments info_user {Menu}.
Arguments info_permissions {Menu}.
Arguments info_menus {Menu}.

Definition findOneById (id : string) : M Obj :=
  result <~ service_findOneById id ["password"; "openid"] ;;
  match result with
  | None => throw (HttpExceptionFactory.notFound "用户不存在")
  | Some result => ret result
  end.

(** ** Password reset *)

Section Passwords.

(** The one-way hash applied to a password before it is stored, and the
    source of random credentials, are parameters. *)
Variable hashPassword : string → string.
Variable randomSource : nat → string.

(** Modelled from the spec: [UserService.generateRandomPassword] is not
    part of the sources at hand.  It generates a random credential: the
    next draw from the random source. *)
Definition generateRandomPassword : M string :=
  λ w, (Ok (randomSource (randomUsed w)),
        mkWorld (users w) (permCache w) (cacheCalls w) (warnings w)
                (S (randomUsed w)) (loginSettings w)).

(** Modelled from the spec: [UserService.resetPassword] is not part of
    the sources at hand.  It loads the target (absent: [NotFoundError]),
    applies the single-field change, storing the hash of the new
    password as the credential, persists and returns the updated
    projection. *)
Definition resetPassword (id password : string) : M Obj :=
  updateById id {[ "password" := VStr (hashPassword password) ]} ["password"].

(** [resetPasswordAuto]: the result object [{ password }] is represented
    by its only field. *)
Definition resetPasswordAuto (id : string) : M string :=
  randomPassword <~ generateRandomPassword ;;
  _ <~ resetPassword id randomPassword ;;
  ret randomPassword.

End Passwords.

(** ** Login settings *)

Section LoginSettings.

(** [Object.values(LOGIN_TYPE)]: the constant table of
    [@fastbuildai/constants] is outside the sources at hand and is a
    parameter. *)
Variable validLoginTypes : list Value.

(** [Array.prototype.includes] with an argument that may be
    [undefined]. *)
Definition includes (xs : list Value) (x : option Value) : bool :=
  match x with
  | Some v => bool_decide (v ∈ xs)
  | None => false
  end.

(** The [for ... of] loops: the first method outside the table throws. *)
Fixpoint checkMethods (label : string) (methods : list Value) : Result unit :=
  match methods with
  | [] => Ok tt
  | method :: rest =>
      if negb (includes validLoginTypes (Some method))
      then Err (HttpExceptionFactory.paramError
                  (label +:+ templateString (Some method)))
      else checkMethods label rest
  end.

Definition missingOrEmpty (xs : option (list Value)) : bool :=
  match xs with
  | None => true
  | Some xs => bool_decide (length xs = 0%nat)
  end.

Definition validateLoginSettings (config : LoginSettingsConfig) : Result unit :=
  if missingOrEmpty (allowedLoginMethods config)
  then Err (HttpExceptionFactory.paramError "至少需要启用一种登录方式")
  else if negb (includes (default [] (allowedLoginMethods config))
                         (defaultLoginMethod config))
  then Err (HttpExceptionFactory.paramError "默认登录方式必须在允许的登录方式列表中")
  else if missingOrEmpty (allowedRegisterMethods config)
  then Err (HttpExceptionFactory.paramError "至少需要启用一种注册方式")
  else
    match checkMethods "无效的登录方式: " (default [] (allowedLoginMethods config)) with
    | Err e => Err e
    | Ok _ =>
        checkMethods "无效的注册方式: " (default [] (allowedRegisterMethods config))
    end.

(** [DictService.set("login_settings", config, { group: "auth" })]. *)
Definition dict_set_login_settings (config : LoginSettingsConfig) : M unit :=
  λ w, (Ok tt,
        mkWorld (users w) (permCache w) (cacheCalls w) (warnings w)
                (randomUsed w) (Some config)).

Definition liftResult {A} (r : Result A) : M A := λ w, (r, w).

Definition setLoginSettings (config : LoginSettingsConfig)
  : M LoginSettingsConfig :=
  _ <~ liftResult (validateLoginSettings config) ;;
  _ <~ dict_set_login_settings config ;;
  ret config.

(** The rules of the specification, in its words: a configuration is
    rejected when the allowed login methods are empty or missing, when
    the allowed register methods are empty or missing, when the default
    login method is not a member of the allowed login methods, or when a
    listed method is not a recognized identifier. *)
Definition isMember (x : option Value) (xs : option (list Value)) : Prop :=
  ∃ v l, x = Some v ∧ xs = Some l ∧ v ∈ l.

Definition listed (config : LoginSettingsConfig) : list Value :=
  default [] (allowedLoginMethods config)
  ++ default [] (allowedRegisterMethods config).

Definition violatesLoginRules (config : LoginSettingsConfig) : Prop :=
  allowedLoginMethods config = None ∨ allowedLoginMethods config = Some [] ∨
  allowedRegisterMethods config = None ∨ allowedRegisterMethods config = Some [] ∨
  ¬ isMember (defaultLoginMethod config) (allowedLoginMethods config) ∨
  (∃ method, method ∈ listed config ∧ method ∉ validLoginTypes).

End LoginSettings.

(** What [batchRemove] looks at: the stored root users among the targets. *)
Definition rootTargets (ids : list string) (w : World) : list Obj :=
  List.filter (λ user, isEnabled (user !! "isRoot"))
              (List.filter (idIn ids) (users w)).

End UserController.

(** Sample data for the user table. *)
Module UserSamples.
Import UserController.

Definition rootUser : Obj :=
  {[ "id" := VStr "u-root"; "isRoot" := VNum 1; "password" := VStr "h0";
     "openid" := VStr "wx-root"; "nickname" := VStr "admin" ]}.

Definition plainUser : Obj :=
  {[ "id" := VStr "u-2"; "isRoot" := VNum 0; "password" := VStr "h2";
     "openid" := VStr "wx-2"; "nickname" := VStr "bob" ]}.

Definition sampleWorld : World :=
  mkWorld [rootUser; plainUser] ∅ [] [] 0 None.

Definition cacheOk : string → gmap string (list string) →
    gmap string (list string) * option string :=
  λ id cache, (delete id cache, None).

Definition cacheDown : string → gmap string (list string) →
    gmap string (list string) * option string :=
  λ _ cache, (cache, Some "ECONNREFUSED").

Definition nicknamePatch : Obj := {[ "nickname" := VStr "carol" ]}.

Definition secondRoot : Obj :=
  {[ "id" := VStr "u-9"; "isRoot" := VNum 1; "password" := VStr "h9" ]}.

Definition twoRootsWorld : World :=
  mkWorld [rootUser; plainUser; secondRoot] ∅ [] [] 0 None.

(** The method identifiers used by the examples of the specification. *)
Definition specLoginTypes : list Value :=
  [VStr "account"; VStr "phone"; VStr "wechat"].

Definition noLoginMethod : LoginSettingsConfig :=
  mkLoginSettingsConfig (Some []) (Some [VStr "account"]) (Some (VStr "account"))
                        false true.

Definition defaultNotAllowed : LoginSettingsConfig :=
  mkLoginSettingsConfig (Some [VStr "account"]) (Some [VStr "account"])
                        (Some (VStr "phone")) false true.

Definition goodSettings : LoginSettingsConfig :=
  mkLoginSettingsConfig (Some [VStr "account"; VStr "phone"]) (Some [VStr "account"])
                        (Some (VStr "account")) false true.

Definition unknownMethod : LoginSettingsConfig :=
  mkLoginSettingsConfig (Some [VStr "account"]) (Some [VStr "account"; VStr "fax"])
                        (Some (VStr "account")) false true.

Definition samplePermissions : string → list string :=
  λ id, if String.eqb id "u-2" then ["users:list"] else [].

Definition sampleMenus : list string → list string := λ codes, codes.

Definition sampleHash : string → string := λ password, "bcrypt$" +:+ password.

Definition sampleRandom : nat → string :=
  λ n, match n with O => "Xk3-9fQz" | _ => "pL7_w2Tr" end.

End UserSamples.

(** ** Reading the login settings *)

Module LoginSettings.
Import UserController.

(** The table [LOGIN_TYPE] of [@fastbuildai/constants] is outside the
    sources at hand: its three entries the controller names, and whatever
    other entries it has, are parameters. *)
Record LoginTypeTable := mkLoginTypeTable {
  ACCOUNT : Value;
  PHONE : Value;
  WECHAT : Value;
  otherTypes : list Value
}.

(** [Object.values(LOGIN_TYPE)]. *)
Definition loginTypeValues (LOGIN_TYPE : LoginTypeTable) : list Value :=
  [ACCOUNT LOGIN_TYPE; PHONE LOGIN_TYPE; WECHAT LOGIN_TYPE] ++ otherTypes LOGIN_TYPE.

Definition getDefaultLoginSettings (LOGIN_TYPE : LoginTypeTable)
  : LoginSettingsConfig :=
  mkLoginSettingsConfig
    (Some [ACCOUNT LOGIN_TYPE; PHONE LOGIN_TYPE; WECHAT LOGIN_TYPE])
    (Some [ACCOUNT LOGIN_TYPE; PHONE LOGIN_TYPE])
    (Some (ACCOUNT LOGIN_TYPE))
    false true.

(** Modelled from the spec: [DictService.get(key, default, namespace)] is
    not part of the sources at hand; it returns the stored value of the
    key, or the default when nothing is stored. *)
Definition getLoginSettings (LOGIN_TYPE : LoginTypeTable) : M LoginSettingsConfig :=
  λ w, (Ok (default (getDefaultLoginSettings LOGIN_TYPE) (loginSettings w)), w).

Definition sampleLoginTypes : LoginTypeTable :=
  mkLoginTypeTable (VNum 1) (VNum 2) (VNum 3) [VNum 4].

End LoginSettings.

(** * Application restart ([SystemService]) *)

Module SystemService.

(** The environment variables the service reads. *)
Record ProcessEnv := mkProcessEnv {
  SERVER_PORT : option string;
  PM2_HOME : option string;
  PM2_JSON_PROCESSING : option string;
  PM2_CLI : option string;
  PM2_APP_NAME : option string
}.

(** An environment variable is falsy when it is unset or empty. *)
Definition truthy (v : option string) : bool :=
  match v with
  | Some s => negb (String.eqb s "")
  | None => false
  end.

(** [v || fallback]. *)
Definition orElse (v : option string) (fallback : string) : string :=
  match v with
  | Some s => if String.eqb s "" then fallback else s
  | None => fallback
  end.

(** What a call of the promisified [exec] does with a command: the promise
    resolves with the standard output, the promise rejects, or the call
    itself throws before a promise exists. *)
Inductive ExecOutcome :=
  | ExecResolved (stdout : string)
  | ExecRejected (message : string)
  | ExecThrew (message : string).

Inductive LogLevel := LOG | WARN | ERROR.

Inductive ProcessStatus := Running | Exited (code : Z).

(** A callback registered with [setTimeout]: the delay and the variables
    the closure captured. *)
Record Timer := mkTimer {
  delay : Z;
  timer_isPm2 : bool;
  timer_pm2AppName : string
}.

(** The process: the static restart flag, the calls suspended at
    [await this.checkIfRunningWithPm2()], the registered timers, the log,
    the commands handed to [exec], and whether the process still runs. *)
Record State := mkState {
  isRestarting : bool;
  awaiting : nat;
  timers : list Timer;
  logs : list (LogLevel * string);
  commands : list string;
  status : ProcessStatus
}.

Definition initialState : State := mkState false 0 [] [] [] Running.

Record RestartResult := mkRestartResult { success : bool; message : string }.

Definition logger (level : LogLevel) (text : string) (s : State) : State :=
  mkState (isRestarting s) (awaiting s) (timers s) (logs s ++ [(level, text)])
          (commands s) (status s).

Definition set_isRestarting (b : bool) (s : State) : State :=
  mkState b (awaiting s) (timers s) (logs s) (commands s) (status s).

Definition set_awaiting (n : nat) (s : State) : State :=
  mkState (isRestarting s) n (timers s) (logs s) (commands s) (status s).

Definition set_timers (ts : list Timer) (s : State) : State :=
  mkState (isRestarting s) (awaiting s) ts (logs s) (commands s) (status s).

Definition record_command (cmd : string) (s : State) : State :=
  mkState (isRestarting s) (awaiting s) (timers s) (logs s)
          (commands s ++ [cmd]) (status s).

Definition set_status (st : ProcessStatus) (s : State) : State :=
  mkState (isRestarting s) (awaiting s) (timers s) (logs s) (commands s) st.

Section WithEnvironment.

Variable env : ProcessEnv.
Variable exec : string → ExecOutcome.

Definition pm2ListCommand : string :=
  "pm2 list | grep $(echo $npm_package_name || echo 'fastbuildai')".

(** [checkIfRunningWithPm2]: the answer, and whether the process list had
    to be queried for it.  Any failure of the query is caught and counts
    as no. *)
Definition checkIfRunningWithPm2 : bool :=
  if truthy (PM2_HOME env) || truthy (PM2_JSON_PROCESSING env)
     || truthy (PM2_CLI env)
  then true
  else match exec pm2ListCommand with
       | ExecResolved stdout => negb (String.eqb (trim stdout) "")
       | ExecRejected _ | ExecThrew _ => false
       end.

Definition probeQueriesPm2 : bool :=
  negb (truthy (PM2_HOME env) || truthy (PM2_JSON_PROCESSING env)
        || truthy (PM2_CLI env)).

Definition pm2AppName : string := orElse (PM2_APP_NAME env) "fastbuildai".

(** ** The scheduled action *)

(** The callback runs until it returns, throws or ends the process. *)
Inductive Outcome (A : Type) :=
  | Returned (a : A) (s : State)
  | Threw (message : string) (s : State)
  | ProcessExit (code : Z) (s : State).
Arguments Returned {A} a s.
Arguments Threw {A} message s.
Arguments ProcessExit {A} code s.

Definition Act (A : Type) : Type := State → Outcome A.

Definition act_ret {A} (a : A) : Act A := λ s, Returned a s.

Definition act_bind {A B} (c : Act A) (k : A → Act B) : Act B :=
  λ s, match c s with
       | Returned a s' => k a s'
       | Threw msg s' => Threw msg s'
       | ProcessExit code s' => ProcessExit code s'
       end.

Notation "x <- c ;;; k" := (act_bind c (λ x, k))
  (at level 100, c at next level, right associativity).

Definition act_log (level : LogLevel) (text : string) : Act unit :=
  λ s, Returned tt (logger level text s).

Definition process_exit {A} (code : Z) : Act A :=
  λ s, ProcessExit code (set_status (Exited code) s).

Definition try_catch {A} (body : Act A) (handler : string → Act A) : Act A :=
  λ s, match body s with
       | Threw msg s' => handler msg s'
       | out => out
       end.

(** [await execPromise(cmd).catch(onRejected)]: a rejection runs the
    handler; a call that throws is not covered by [.catch]. *)
Definition execPromise_catch (cmd : string) (onRejected : string → Act unit)
  : Act unit :=
  λ s, match exec cmd with
       | ExecResolved _ => Returned tt (record_command cmd s)
       | ExecRejected msg => onRejected msg (record_command cmd s)
       | ExecThrew msg => Threw msg (record_command cmd s)
       end.

Definition scheduledAction (isPm2 : bool) (pm2AppName : string) : Act unit :=
  try_catch
    (if isPm2 then
       _ <- act_log LOG ("检测到PM2环境，通过PM2命令重启应用 " +:+ pm2AppName +:+ "...") ;;;
       _ <- execPromise_catch ("pm2 restart " +:+ pm2AppName)
              (λ message,
                 _ <- act_log WARN ("PM2重启命令失败: " +:+ message
                                    +:+ "，尝试使用进程退出方式重启") ;;;
                 process_exit 0) ;;;
       act_log LOG ("PM2重启命令已执行，应用 " +:+ pm2AppName +:+ " 正在重启...")
     else
       _ <- act_log LOG "未检测到PM2环境，通过进程退出方式重启..." ;;;
       process_exit 0)
    (λ message,
       _ <- act_log ERROR ("重启过程中发生错误: " +:+ message) ;;;
       _ <- (λ s, Returned tt (set_isRestarting false s)) ;;;
       process_exit 1).

Definition finalState {A} (out : Outcome A) : State :=
  match out with
  | Returned _ s | Threw _ s | ProcessExit _ s => s
  end.

(** ** [restartApplication] *)

Definition declined : RestartResult :=
  mkRestartResult false "应用正在重启中，请勿重复操作".

Definition accepted : RestartResult :=
  mkRestartResult true "应用重启指令已发送，服务即将重启".

(** The part of [restartApplication] that runs before the first [await]:
    the guard, the flag and the first log line.  It ends with the
    declined response, or suspended at the probe. *)
Definition restart_begin (s : State) : option RestartResult * State :=
  if isRestarting s then
    (Some declined, logger WARN "应用正在重启中，请勿重复操作" s)
  else
    let s := set_isRestarting true s in
    let port := parseInt (orElse (SERVER_PORT env) "4090") 10 in
    let s := logger LOG ("正在重启应用，当前端口: " +:+ JsNum_toString port +:+ "...") s in
    (None, set_awaiting (S (awaiting s)) s).

(** The part after the probe has answered: the timer is registered and
    the accepted response returned. *)
Definition restart_resume (s : State) : RestartResult * State :=
  let isPm2 := checkIfRunningWithPm2 in
  let s := if probeQueriesPm2 then record_command pm2ListCommand s else s in
  let s := set_awaiting (pred (awaiting s)) s in
  (accepted, set_timers (timers s ++ [mkTimer 1000 isPm2 pm2AppName]) s).

(** A call that is not interleaved with anything else.  The outer
    [catch] of the method has nothing to catch: the probe handles its own
    failures and the statements before it do not throw. *)
Definition restartApplication (s : State) : RestartResult * State :=
  match restart_begin s with
  | (Some response, s') => (response, s')
  | (None, s') => restart_resume s'
  end.

(** A timer fires: its callback runs on the state without it. *)
Definition fire (t : Timer) (rest : list Timer) (s : State) : State :=
  finalState (scheduledAction (timer_isPm2 t) (timer_pm2AppName t)
                              (set_timers rest s)).

(** ** The process as a transition system *)

Inductive Label :=
  | RequestDeclined
  | RequestSuspended
  | RequestAccepted
  | TimerFired.

Inductive step : State → Label → State → Prop :=
  | step_declined s s' response :
      status s = Running →
      restart_begin s = (Some response, s') →
      step s RequestDeclined s'
  | step_suspended s s' :
      status s = Running →
      restart_begin s = (None, s') →
      step s RequestSuspended s'
  | step_accepted s :
      status s = Running →
      (0 < awaiting s)%nat →
      step s RequestAccepted (snd (restart_resume s))
  | step_fired s before t after :
      status s = Running →
      timers s = before ++ t :: after →
      step s TimerFired (fire t (before ++ after) s).

Inductive run : State → list Label → State → Prop :=
  | run_nil s : run s [] s
  | run_step s tr s' l s'' : run s tr s' → step s' l s'' → run s (tr ++ [l]) s''.

Definition scheduled (tr : list Label) : nat :=
  length (List.filter (λ l, match l with RequestAccepted => true | _ => false end) tr).

End WithEnvironment.

Arguments Returned {A} a s.
Arguments Threw {A} message s.
Arguments ProcessExit {A} code s.

(** The invariant of the process: the calls suspended at the probe and
    the actions scheduled so far number at most one, no timer exists that
    was not scheduled, and while the process runs with the flag down
    nothing is suspended and nothing was scheduled. *)
Definition restart_invariant (tr : list Label) (s : State) : Prop :=
  (awaiting s + scheduled tr ≤ 1)%nat ∧
  (length (timers s) ≤ scheduled tr)%nat ∧
  (status s = Running → isRestarting s = false →
   awaiting s = 0%nat ∧ scheduled tr = 0%nat).

(** The requests of a trace that passed the guard. *)
Definition guardPassed (tr : list Label) : nat :=
  length (List.filter (λ l, match l with RequestSuspended => true | _ => false end) tr).

End SystemService.

(** Sample environments for the restart service. *)
Module SystemSamples.
Import SystemService.

Definition bareEnv : ProcessEnv := mkProcessEnv None None None None None.

Definition pm2Env : ProcessEnv :=
  mkProcessEnv (Some "8080") (Some "/home/app/.pm2") None None (Some "console").

Definition noPm2 : string → ExecOutcome := λ _, ExecRejected "pm2: not found".

Definition pm2Works : string → ExecOutcome := λ _, ExecResolved "ok".

Definition pm2SpawnFails : string → ExecOutcome := λ _, ExecThrew "spawn EAGAIN".

End SystemSamples.

(** * Payment configuration lookup ([PayconfigService]) *)

Module PayconfigService.

(** The entity, with the columns the service's [list] query selects. *)
Record Payconfig := mkPayconfig {
  id : string;
  name : string;
  payType : Z;
  isEnable : Z;
  logo : string;
  sort : Z;
  isDefault : Z
}.

Definition getPayconfig (type : Z) (repository : list Payconfig) : Result Payconfig :=
  match findOneBy (λ row, bool_decide (isEnable row = BooleanNumber_YES)
                          && bool_decide (payType row = type)) repository with
  | None => Err (HttpExceptionFactory.notFound "支付配置不存在")
  | Some payconfig => Ok payconfig
  end.

End PayconfigService.

Module PayconfigSamples.
Import PayconfigService.

Definition wechatOff : Payconfig := mkPayconfig "p-1" "WeChat Pay" 1 0 "wx.png" 2 1.
Definition alipayOn : Payconfig := mkPayconfig "p-2" "Alipay" 2 1 "ali.png" 1 0.
Definition wechatOn : Payconfig := mkPayconfig "p-3" "WeChat Pay (new)" 1 1 "wx2.png" 0 0.

End PayconfigSamples.

(** * Date grouping of conversations (chat front end) *)

Module DateUtil.

(** ** Numbers that may be [NaN] *)

Definition jsAdd (a b : JsNum) : JsNum :=
  match a, b with
  | Some a, Some b => Some (a + b)
  | _, _ => None
  end.

Definition jsSub (a b : JsNum) : JsNum :=
  match a, b with
  | Some a, Some b => Some (a - b)
  | _, _ => None
  end.

Definition jsMul (a b : JsNum) : JsNum :=
  match a, b with
  | Some a, Some b => Some (a * b)
  | _, _ => None
  end.

(** [Math.floor(a / d)] for a positive integer [d]. *)
Definition jsFloorDiv (a : JsNum) (d : Z) : JsNum := (λ a, a / d) <$> a.

(** Comparisons with a number: all of them are false on [NaN]. *)
Definition jsEq (a : JsNum) (z : Z) : bool :=
  match a with Some a => a =? z | None => false end.

Definition jsLe (a : JsNum) (z : Z) : bool :=
  match a with Some a => a <=? z | None => false end.

Definition jsLt (a : JsNum) (z : Z) : bool :=
  match a with Some a => a <? z | None => false end.

(** ** [Array.prototype.sort] *)

(** The result of a comparator is read as "the first argument goes after
    the second" when it is positive; [NaN] counts as zero. *)
Definition goesAfter (c : JsNum) : bool :=
  match c with Some c => 0 <? c | None => false end.

(** The sort is stable.  For a comparator that is a consistent ordering
    the sorted array is determined by that, and is what this insertion sort
    computes. *)
Fixpoint insertSorted {A} (compare : A → A → JsNum) (x : A) (sorted : list A)
  : list A :=
  match sorted with
  | [] => [x]
  | y :: rest =>
      if goesAfter (compare x y) then y :: insertSorted compare x rest
      else x :: y :: rest
  end.

Definition jsSort {A} (compare : A → A → JsNum) (xs : list A) : list A :=
  foldr (insertSorted compare) [] xs.

(** ** Strings *)

Fixpoint containsChar (c : ascii) (s : string) : bool :=
  match s with
  | String c' rest => Ascii.eqb c' c || containsChar c rest
  | EmptyString => false
  end.

(** [s.split(sep)] for a separator of one character. *)
Fixpoint splitOn (sep : ascii) (s : string) : list string :=
  match s with
  | EmptyString => [EmptyString]
  | String c rest =>
      if Ascii.eqb c sep then EmptyString :: splitOn sep rest
      else match splitOn sep rest with
           | segment :: segments => String c segment :: segments
           | [] => [String c EmptyString]
           end
  end.

(** Strings of decimal digits and the number they denote. *)
Definition isDigit (c : ascii) : bool :=
  let n := nat_of_ascii c in (48 <=? n)%nat && (n <=? 57)%nat.

Fixpoint allDigits (s : string) : bool :=
  match s with
  | String c rest => isDigit c && allDigits rest
  | EmptyString => true
  end.

Fixpoint digitsValue (acc : Z) (s : string) : Z :=
  match s with
  | String c rest => digitsValue (acc * 10 + (Z.of_nat (nat_of_ascii c) - 48)) rest
  | EmptyString => acc
  end.

(** [parseInt] of an array element that may be [undefined]. *)
Definition parseIntOf (s : option string) : JsNum :=
  match s with
  | Some s => parseInt s 0
  | None => None
  end.

(** [xs[i]] for a number [i]: [undefined] outside the array. *)
Definition arrayAt {A} (xs : list A) (i : JsNum) : option A :=
  match i with
  | Some i => if i <? 0 then None else xs !! Z.to_nat i
  | None => None
  end.

(** ** Dates *)

(** The local-time calendar of the runtime: the getters of a valid [Date]
    given its time value in milliseconds, and the time value of
    [new Date(year, month, day)] ([None] when the date is invalid). *)
Record Calendar := mkCalendar {
  getFullYear : Z → Z;
  getMonth : Z → Z;
  getDate : Z → Z;
  makeDate : Z → Z → Z → option Z
}.

Record GroupedConversations := mkGroupedConversations {
  label : option string;
  key : string;
  items : list Obj
}.

Section WithClock.

Variable cal : Calendar.

(** [new Date(value).getTime()] for the value of a field that may be
    absent; [None] is [NaN], the time value of an invalid date. *)
Variable newDate : option Value → option Z.

(** The time value of [new Date()]: the clock is taken to stand still
    during one call. *)
Variable now : Z.

Definition dateOfFields (year month day : JsNum) : option Z :=
  match year, month, day with
  | Some year, Some month, Some day => makeDate cal year month day
  | _, _, _ => None
  end.

(** The day difference is computed on local midnights, where the double
    arithmetic of the source is exact. *)
Definition getDateGroup (date : option Value) : string :=
  let targetDate := newDate date in
  let today :=
    dateOfFields (Some (getFullYear cal now)) (Some (getMonth cal now))
                 (Some (getDate cal now)) in
  let target :=
    dateOfFields (getFullYear cal <$> targetDate) (getMonth cal <$> targetDate)
                 (getDate cal <$> targetDate) in
  let diffTime := jsSub today target in
  let diffDays := jsFloorDiv diffTime (1000 * 60 * 60 * 24) in
  if jsEq diffDays 0 then "today"
  else if jsEq diffDays 1 then "yesterday"
  else if jsLe diffDays 7 then "week"
  else if jsLe diffDays 30 then "month"
  else JsNum_toString (getFullYear cal <$> targetDate) +:+ "-"
       +:+ JsNum_toString (jsAdd (getMonth cal <$> targetDate) (Some 1)).

Definition monthNames : list string :=
  ["1月"; "2月"; "3月"; "4月"; "5月"; "6月";
   "7月"; "8月"; "9月"; "10月"; "11月"; "12月"].

Definition monthKeys : list string :=
  ["january"; "february"; "march"; "april"; "may"; "june";
   "july"; "august"; "september"; "october"; "november"; "december"].

Definition orUndefined (s : option string) : string := default "undefined" s.

(** [getGroupLabel]; the result is [None] where the source returns
    [undefined] (a month outside the table). *)
Definition getGroupLabel (groupKey : string) (t : option (string → string))
  : option string :=
  match t with
  | None =>
      if String.eqb groupKey "today" then Some "今天"
      else if String.eqb groupKey "yesterday" then Some "昨天"
      else if String.eqb groupKey "week" then Some "7天内"
      else if String.eqb groupKey "month" then Some "30天内"
      else if containsChar "-" groupKey then
        let parts := splitOn "-" groupKey in
        let year := parts !! 0%nat in
        let month := parts !! 1%nat in
        let currentYear := getFullYear cal now in
        if jsEq (parseIntOf year) currentYear
        then arrayAt monthNames (jsSub (parseIntOf month) (Some 1))
        else Some (orUndefined year +:+ "年"
                   +:+ orUndefined (arrayAt monthNames (jsSub (parseIntOf month) (Some 1))))
      else Some groupKey
  | Some t =>
      if String.eqb groupKey "today" then Some (t "common.dateGroup.today")
      else if String.eqb groupKey "yesterday" then Some (t "common.dateGroup.yesterday")
      else if String.eqb groupKey "week" then Some (t "common.dateGroup.week")
      else if String.eqb groupKey "month" then Some (t "common.dateGroup.month")
      else if containsChar "-" groupKey then
        let parts := splitOn "-" groupKey in
        let year := parts !! 0%nat in
        let month := parts !! 1%nat in
        let currentYear := getFullYear cal now in
        let monthName :=
          t ("common.dateGroup.months."
             +:+ orUndefined (arrayAt monthKeys (jsSub (parseIntOf month) (Some 1)))) in
        if jsEq (parseIntOf year) currentYear
        then Some monthName
        else Some (orUndefined year +:+ "年" +:+ monthName)
      else Some groupKey
  end.

Definition getGroupWeight (groupKey : string) : JsNum :=
  if String.eqb groupKey "today" then Some 1
  else if String.eqb groupKey "yesterday" then Some 2
  else if String.eqb groupKey "week" then Some 3
  else if String.eqb groupKey "month" then Some 4
  else if containsChar "-" groupKey then
    let parts := splitOn "-" groupKey in
    let year := parts !! 0%nat in
    let month := parts !! 1%nat in
    jsAdd (jsAdd (Some 1000) (jsMul (parseIntOf year) (Some 100))) (parseIntOf month)
  else Some 9999.

(** The [Map] of the source keeps its keys in insertion order: a list of
    entries.  [groupsPush] is the body of the [forEach]: the entry of the
    key is created at the end when it is missing, and the item is pushed
    onto its array. *)
Fixpoint groupsPush (groupKey : string) (item : Obj)
    (groups : list (string * list Obj)) : list (string * list Obj) :=
  match groups with
  | [] => [(groupKey, [item])]
  | (k, entries) :: rest =>
      if String.eqb k groupKey then (k, entries ++ [item]) :: rest
      else (k, entries) :: groupsPush groupKey item rest
  end.

Definition groupsBy (keyOf : Obj → string) (conversations : list Obj)
  : list (string * list Obj) :=
  foldl (λ groups item, groupsPush (keyOf item) item groups) [] conversations.

Definition groupsOf (conversations : list Obj) (dateField : string)
  : list (string * list Obj) :=
  groupsBy (λ item, getDateGroup (item !! dateField)) conversations.

Definition timeOf (dateField : string) (item : Obj) : JsNum :=
  newDate (item !! dateField).

Definition groupConversationsByDate (conversations : list Obj)
    (dateField : string) (t : option (string → string))
  : list GroupedConversations :=
  jsSort (λ a b, jsSub (getGroupWeight (key a)) (getGroupWeight (key b)))
    ((λ '(k, entries),
        mkGroupedConversations
          (getGroupLabel k t) k
          (jsSort (λ a b, jsSub (timeOf dateField b) (timeOf dateField a)) entries))
       <$> groupsOf conversations dateField).

(** ** [formatRelativeTime] *)

(** [toLocaleDateString("zh-CN", { month, day })] belongs to the runtime:
    a parameter.  The quotients are whole numbers of minutes, hours and
    days; time values are integers, for which [Math.floor] of the double
    quotient is the integer quotient. *)
Variable toLocaleDateString : option Z → string.

Definition formatRelativeTime (date : option Value) (t : option (string → string))
  : string :=
  let targetDate := newDate date in
  let diffTime := jsSub (Some now) targetDate in
  let diffMinutes := jsFloorDiv diffTime (1000 * 60) in
  let diffHours := jsFloorDiv diffTime (1000 * 60 * 60) in
  let diffDays := jsFloorDiv diffTime (1000 * 60 * 60 * 24) in
  match t with
  | None =>
      if jsLt diffMinutes 1 then "刚刚"
      else if jsLt diffMinutes 60 then JsNum_toString diffMinutes +:+ "分钟前"
      else if jsLt diffHours 24 then JsNum_toString diffHours +:+ "小时前"
      else if jsLt diffDays 7 then JsNum_toString diffDays +:+ "天前"
      else toLocaleDateString targetDate
  | Some t =>
      if jsLt diffMinutes 1 then t "console-common.time.justNow"
      else if jsLt diffMinutes 60
      then JsNum_toString diffMinutes +:+ t "console-common.time.minutesAgo"
      else if jsLt diffHours 24
      then JsNum_toString diffHours +:+ t "console-common.time.hoursAgo"
      else if jsLt diffDays 7
      then JsNum_toString diffDays +:+ t "console-common.time.daysAgo"
      else toLocaleDateString targetDate
  end.

End WithClock.

(** [a] may stand before [b] in a group: both dates are valid and the
    one of [a] is not the earlier one. *)
Definition notOlder (newDate : option Value → option Z) (dateField : string)
    (a b : Obj) : Prop :=
  ∃ ta tb, newDate (a !! dateField) = Some ta ∧ newDate (b !! dateField) = Some tb ∧
           tb ≤ ta.

(** The rank of a group in the listing: the four named groups in their
    fixed order, every other group after them. *)
Definition groupRank (groupKey : string) : nat :=
  if String.eqb groupKey "today" then 0
  else if String.eqb groupKey "yesterday" then 1
  else if String.eqb groupKey "week" then 2
  else if String.eqb groupKey "month" then 3
  else 4.

(** An item with a valid date in a year from 0 on (the months of the
    calendar run from 0 to 11). *)
Definition datedInCommonEra (cal : Calendar) (newDate : option Value → option Z)
    (dateField : string) (item : Obj) : Prop :=
  ∃ t, newDate (item !! dateField) = Some t ∧
       0 ≤ getFullYear cal t ∧ 0 ≤ getMonth cal t ≤ 11.

(** The order of two groups by their weights, both numbers. *)
Definition weightOrdered (a b : GroupedConversations) : Prop :=
  ∃ wa wb, getGroupWeight (key a) = Some wa ∧ getGroupWeight (key b) = Some wb ∧
           wa ≤ wb.

(** The key of the group of a month (1-12). *)
Definition monthKey (year month : Z) : string :=
  Z_toString year +:+ "-" +:+ Z_toString month.


End DateUtil.

(** A calendar to compute with: the proleptic Gregorian calendar in UTC. *)
Module DateSamples.
Import DateUtil.

Definition msPerDay : Z := 86400000.

(** Days since 1970-01-01 of a civil date (month 1-12). *)
Definition daysFromCivil (y m d : Z) : Z :=
  let y := if m <=? 2 then y - 1 else y in
  let era := y / 400 in
  let yoe := y - era * 400 in
  let doy := (153 * (if 2 <? m then m - 3 else m + 9) + 2) / 5 + d - 1 in
  let doe := yoe * 365 + yoe / 4 - yoe / 100 + doy in
  era * 146097 + doe - 719468.

(** The civil date (year, month 1-12, day) of a day number. *)
Definition civilFromDays (z : Z) : Z * Z * Z :=
  let z := z + 719468 in
  let era := z / 146097 in
  let doe := z - era * 146097 in
  let yoe := (doe - doe / 1460 + doe / 36524 - doe / 146096) / 365 in
  let y := yoe + era * 400 in
  let doy := doe - (365 * yoe + yoe / 4 - yoe / 100) in
  let mp := (5 * doy + 2) / 153 in
  let d := doy - (153 * mp + 2) / 5 + 1 in
  let m := if mp <? 10 then mp + 3 else mp - 9 in
  (if m <=? 2 then y + 1 else y, m, d).

Definition maxTime : Z := 8640000000000000.

Definition inRange (t : Z) : option Z :=
  if (- maxTime <=? t) && (t <=? maxTime) then Some t else None.

Definition utc : Calendar :=
  mkCalendar
    (λ t, let '(y, _, _) := civilFromDays (t / msPerDay) in y)
    (λ t, let '(_, m, _) := civilFromDays (t / msPerDay) in m - 1)
    (λ t, let '(_, _, d) := civilFromDays (t / msPerDay) in d)
    (λ year month day,
       let year := if (0 <=? year) && (year <=? 99) then 1900 + year else year in
       let y := year + month / 12 in
       let m := month mod 12 + 1 in
       inRange ((daysFromCivil y m 1 + (day - 1)) * msPerDay)).

(** The [Date] constructor on time values: a number is the time value
    itself, [undefined] gives an invalid date.  (Date strings are not
    parsed by this sample.) *)
Definition dateOfTimestamp (v : option Value) : option Z :=
  match v with
  | Some (VNum n) => inRange n
  | Some VNull => Some 0
  | Some (VBool b) => Some (if b then 1 else 0)
  | _ => None
  end.

(** 2026-11-01T12:00:00Z. *)
Definition sampleNow : Z := (daysFromCivil 2026 11 1) * msPerDay + 12 * 3600000.

Definition at_ (title : string) (y m d h : Z) : Obj :=
  {[ "title" := VStr title;
     "updatedAt" := VNum (daysFromCivil y m d * msPerDay + h * 3600000) ]}.

Definition undated (title : string) : Obj := {[ "title" := VStr title ]}.

Definition sampleLocale : option Z → string :=
  λ t, match t with
       | Some t => Z_toString (getMonth utc t + 1) +:+ "/" +:+ Z_toString (getDate utc t)
       | None => "Invalid Date"
       end.

Definition sampleConversations : list Obj :=
  [at_ "a" 2025 2 28 1; at_ "b" 2026 10 25 1; at_ "c" 2026 11 1 9;
   at_ "d" 2026 9 30 1; at_ "e" 2026 10 31 23; at_ "f" 2026 10 2 1;
   at_ "g" 2026 11 1 2; at_ "h" 2025 2 1 7].

End DateSamples.

(** * Page layouts and micropages ([PageController], console and web) *)

Module PageController.

Record LayoutConfig := mkLayoutConfig {
  layout : string;
  menus : list Obj
}.

(** A row of the page table; the [data] column may be null. *)
Record Page := mkPage {
  id : string;
  name : string;
  data : option LayoutConfig
}.

(** The page table, the micropage table, and the number of rows created
    so far (the store numbers the ids it generates). *)
Record World := mkWorld {
  pages : list Page;
  micropages : list Obj;
  created : nat
}.

Definition hasName (type : string) (page : Page) : bool := String.eqb (name page) type.

Section Handlers.

(** The primary keys the store generates, in the order of creation. *)
Variable generatedId : nat → string.

(** Modelled from the spec: [PageService] (a [BaseService]) is not part of
    the sources at hand.  [findOne] returns the first row that satisfies
    the condition; [updateById] applies the given fields to the row with
    that id, persists and returns the updated row; [create] stores a new
    row under a generated id and returns it. *)
Definition applyData (target : string) (newData : LayoutConfig) (page : Page)
  : Page :=
  if String.eqb (id page) target
  then mkPage (id page) (name page) (Some newData) else page.

Definition service_updateById (target : string) (newData : LayoutConfig)
    (w : World) : option Page * World :=
  let updated := applyData target newData <$> pages w in
  (findOneBy (λ page, String.eqb (id page) target) updated,
   mkWorld updated (micropages w) (created w)).

Definition service_create (type : string) (newData : LayoutConfig)
    (w : World) : Page * World :=
  let page := mkPage (generatedId (created w)) type (Some newData) in
  (page, mkWorld (pages w ++ [page]) (micropages w) (S (created w))).

(** The answer of the console: the id, when a row exists, and the layout. *)
Record LayoutResult := mkLayoutResult {
  result_id : option string;
  result_data : option LayoutConfig
}.

Definition consoleDefault : LayoutConfig := mkLayoutConfig "layout-1" [].

Definition webDefault : LayoutConfig := mkLayoutConfig "layout-5" [].

(** Console: [getLayoutByType]. *)
Definition getLayoutByType (type : string) (w : World) : LayoutResult :=
  match findOneBy (hasName type) (pages w) with
  | None => mkLayoutResult None (Some consoleDefault)
  | Some result =>
      mkLayoutResult (Some (id result))
                     (Some (default consoleDefault (data result)))
  end.

(** Console: [saveLayout].  An update that finds no row has no [id] and
    no [data] to read: the handler fails ([None]). *)
Definition saveLayout (type : string) (newData : LayoutConfig) (w : World)
  : option LayoutResult * World :=
  match findOneBy (hasName type) (pages w) with
  | Some existing =>
      match service_updateById (id existing) newData w with
      | (Some updated, w') =>
          (Some (mkLayoutResult (Some (id updated)) (data updated)), w')
      | (None, w') => (None, w')
      end
  | None =>
      let '(newLayout, w') := service_create type newData w in
      (Some (mkLayoutResult (Some (id newLayout)) (data newLayout)), w')
  end.

(** Web: [getLayoutByType] answers with the stored row, or with a default
    layout. *)
Inductive WebLayout :=
  | DefaultLayout (layoutData : LayoutConfig)
  | StoredLayout (page : Page).

Definition web_getLayoutByType (type : string) (w : World) : WebLayout :=
  match findOneBy (hasName type) (pages w) with
  | None => DefaultLayout webDefault
  | Some result => StoredLayout result
  end.

End Handlers.

(** Web: [getMicropageDetail].  [MicropageService.findOneById] is the
    lookup by id of [BaseService] with excluded fields. *)
Definition getMicropageDetail (target : string) (w : World) : Result Obj :=
  match excludeFields ["page_type"; "source"]
          <$> findOneBy (hasId target) (micropages w) with
  | None => Err (HttpExceptionFactory.notFound "微页面不存在")
  | Some result => Ok result
  end.

End PageController.

Module PageSamples.
Import PageController.

Definition sampleIds : nat → string := λ n, "page-" +:+ Z_toString (Z.of_nat n).

Definition webLayout : LayoutConfig :=
  mkLayoutConfig "layout-3" [{[ "title" := VStr "Home"; "link" := VStr "/" ]}].

Definition otherLayout : LayoutConfig := mkLayoutConfig "layout-2" [].

Definition storedPages : World :=
  mkWorld [mkPage "p-web" "web" None; mkPage "p-mobile" "mobile" (Some otherLayout)]
          [{[ "id" := VStr "m-1"; "name" := VStr "landing"; "page_type" := VStr "web";
              "source" := VStr "import"; "content" := VStr "{}" ]}]
          0.

End PageSamples.

(** * Payment configuration updates ([PayconfigService]) *)

Module PayconfigAdmin.
Import PayconfigService.

(** [PAY_EVENTS.REFRESH] with its payload, the pay type. *)
Inductive PayEvent := REFRESH (type : Z).

(** The table and the events emitted so far. *)
Record World := mkWorld {
  repository : list Payconfig;
  events : list PayEvent
}.

(** The fields an update may carry; an absent field is left alone by
    [Object.assign]. *)
Record UpdatePayconfigDto := mkUpdatePayconfigDto {
  dto_name : option string;
  dto_payType : option Z;
  dto_isEnable : option Z;
  dto_logo : option string;
  dto_sort : option Z;
  dto_isDefault : option Z
}.

Definition assign (payconfig : Payconfig) (dto : UpdatePayconfigDto) : Payconfig :=
  mkPayconfig (id payconfig)
              (default (name payconfig) (dto_name dto))
              (default (payType payconfig) (dto_payType dto))
              (default (isEnable payconfig) (dto_isEnable dto))
              (default (logo payconfig) (dto_logo dto))
              (default (sort payconfig) (dto_sort dto))
              (default (isDefault payconfig) (dto_isDefault dto)).

Definition hasKey (target : string) (payconfig : Payconfig) : bool :=
  String.eqb (id payconfig) target.

(** [repository.save(entity)] for an entity that has a row: the row of its
    primary key is replaced. *)
Definition save (entity : Payconfig) (rows : list Payconfig) : list Payconfig :=
  (λ row, if hasKey (id entity) row then entity else row) <$> rows.

(** Modelled from the spec: [BaseService.updateById] is not part of the
    sources at hand.  It applies the given fields to the row of the id,
    persists and returns the updated row. *)
Definition statusOnly (flag : Z) : UpdatePayconfigDto :=
  mkUpdatePayconfigDto None None (Some flag) None None None.

Definition updateById (target : string) (dto : UpdatePayconfigDto) (w : World)
  : Result Payconfig * World :=
  match findOneBy (hasKey target) (repository w) with
  | None => (Err (HttpExceptionFactory.notFound "payconfig not found"), w)
  | Some row =>
      (Ok (assign row dto),
       mkWorld ((λ row, if hasKey target row then assign row dto else row)
                  <$> repository w)
               (events w))
  end.

Definition updateStatus (target : string) (flag : Z) (w : World)
  : Result Payconfig * World :=
  match findOneBy (hasKey target) (repository w) with
  | None => (Err (HttpExceptionFactory.notFound "支付配置不存在"), w)
  | Some _ => updateById target (statusOnly flag) w
  end.

Definition updatePayconfig (target : string) (dto : UpdatePayconfigDto) (w : World)
  : Result Payconfig * World :=
  match findOneBy (hasKey target) (repository w) with
  | None => (Err (HttpExceptionFactory.notFound "支付配置不存在"), w)
  | Some payconfig =>
      let payconfig := assign payconfig dto in
      let result := payconfig in
      (Ok result,
       mkWorld (save payconfig (repository w))
               (events w ++ [REFRESH (payType payconfig)]))
  end.

End PayconfigAdmin.

(** * Helpers of the web front end *)

Module WebUtils.

(** [s.startsWith(prefix)]. *)
Definition startsWith (s prefix : string) : bool := String.prefix prefix s.

(** [s.indexOf(needle)]: the first position of [needle], or -1. *)
Definition indexOf (s needle : string) : Z :=
  match String.index 0 needle s with
  | Some n => Z.of_nat n
  | None => -1
  end.

(** [s.endsWith(c)] for one character. *)
Fixpoint endsWithChar (s : string) (c : ascii) : bool :=
  match s with
  | EmptyString => false
  | String c' EmptyString => Ascii.eqb c' c
  | String _ rest => endsWithChar rest c
  end.

(** [isActive]; the path of the current route is a parameter. *)
Definition isActive (currentPath : string) (path : string) : bool :=
  if String.eqb path "/" && String.eqb currentPath path then true
  else if String.eqb path "/" && negb (String.eqb currentPath path) then false
  else if String.eqb currentPath path then true
  else if String.eqb path "/pages/index/index" then true
  else
    let normalizedPath := if endsWithChar path "/" then path else path +:+ "/" in
    startsWith currentPath normalizedPath.

(** [getImageUrl]; [apiBaseUrl] is the value of the runtime
    configuration.  The position returned by [indexOf] is used as the
    condition: zero is false. *)
Definition getImageUrl (apiBaseUrl : string) (url : string) : string :=
  if negb (indexOf url "http" =? 0) then apiBaseUrl +:+ "/" +:+ url else url.

Definition isExternalLink (path : option string) : bool :=
  match path with
  | None => false
  | Some path =>
      if String.eqb path "" then false
      else startsWith path "http://" || startsWith path "https://"
  end.

(** [navigateToWeb]: the [external] option handed to [navigateTo].  For a
    link without a path, [link.path?.indexOf("http")] is [undefined], which
    differs from -1. *)
Definition navigateToWeb_external (path : option string) : bool :=
  match path with
  | None => true
  | Some path => negb (indexOf path "http" =? -1)
  end.

(** What [useNuxtApp()] and the [$getCurrentPluginKey] hook of the
    application can do. *)
Inductive PluginHook :=
  | NoHook
  | HookReturns (pluginKey : option string)
  | HookThrows.

Inductive NuxtAccess :=
  | UseNuxtAppThrows
  | NoNuxtApp
  | NuxtApp (hook : PluginHook).

Inductive ConsoleLine := DEBUG (text : string) | WARNING (text : string).

Definition nonEmpty (s : option string) : option string :=
  match s with
  | Some s => if String.eqb s "" then None else Some s
  | None => None
  end.

Definition unknownPlugin : string * list ConsoleLine :=
  ("unknown-plugin",
   [WARNING "[getPluginKey] 无法获取插件名，请手动指定 pluginName 参数"]).

Definition afterDebug (r : string * list ConsoleLine) : string * list ConsoleLine :=
  (fst r, DEBUG "[getPluginKey] 无法访问 nuxtApp，尝试其他方式获取插件名" :: snd r).

(** [getPluginKey]: the key and the lines written to the console. *)
Definition getPluginKey (pluginName : option string) (nuxt : NuxtAccess)
  : string * list ConsoleLine :=
  match nonEmpty pluginName with
  | Some pluginName => (pluginName, [])
  | None =>
      match nuxt with
      | UseNuxtAppThrows => afterDebug unknownPlugin
      | NoNuxtApp => unknownPlugin
      | NuxtApp NoHook => unknownPlugin
      | NuxtApp HookThrows => afterDebug unknownPlugin
      | NuxtApp (HookReturns currentPluginKey) =>
          match nonEmpty currentPluginKey with
          | Some currentPluginKey => (currentPluginKey, [])
          | None => unknownPlugin
          end
      end
  end.

End WebUtils.
(** * Properties *)

(** ** Projections and row lookup *)

Lemma excludeFields_lookup names o k :
  excludeFields names o !! k = if bool_decide (k ∈ names) then None else o !! k.
Proof.
  induction names as [|n names IH]; simpl.
  - reflexivity.
  - destruct (decide (n = k)) as [->|Hne].
    + rewrite lookup_delete_eq. rewrite bool_decide_eq_true_2 by set_solver. done.
    + rewrite lookup_delete_ne by done. rewrite IH.
      destruct (decide (k ∈ names)).
      * rewrite !bool_decide_eq_true_2; [done | by right | done].
      * rewrite !bool_decide_eq_false_2; [done | | done].
        intros [?|?]%elem_of_cons; congruence.
Qed.

Lemma findOneBy_Some {A} (p : A → bool) rows x :
  findOneBy p rows = Some x → x ∈ rows ∧ p x = true.
Proof.
  unfold findOneBy. intros H. apply find_some in H as [Hin Hp].
  split; [by apply list_elem_of_In | done].
Qed.

Lemma findOneBy_None {A} (p : A → bool) rows :
  findOneBy p rows = None ↔ ∀ x, x ∈ rows → p x = false.
Proof.
  unfold findOneBy. split.
  - intros H x Hx. apply list_elem_of_In in Hx. exact (find_none _ _ H x Hx).
  - induction rows as [|r rows IH]; simpl; intros Hall; [done|].
    rewrite (Hall r) by set_solver. apply IH. intros x Hx. apply Hall. set_solver.
Qed.


(** ** Strings *)

Lemma append_cons ch (a b : string) : String ch a +:+ b = String ch (a +:+ b).
Proof. reflexivity. Qed.

Lemma append_assoc (a b c : string) : (a +:+ b) +:+ c = a +:+ (b +:+ c).
Proof.
  induction a as [|ch a IH]; [done|]. by rewrite !append_cons, IH.
Qed.

Lemma append_nil_r (a : string) : a +:+ "" = a.
Proof.
  induction a as [|ch a IH]; [done|]. by rewrite append_cons, IH.
Qed.

Lemma occursIn_prefix pre needle text :
  occursIn needle text → occursIn needle (pre +:+ text).
Proof.
  intros (before & after & ->). exists (pre +:+ before), after.
  by rewrite append_assoc.
Qed.

(** Every element of a joined list occurs in the result. *)
Lemma join_occursIn sep x xs : x ∈ xs → occursIn x (join sep xs).
Proof.
  induction xs as [|y ys IH]; intros Hin.
  - by apply elem_of_nil in Hin.
  - apply elem_of_cons in Hin as [->|Hin].
    + destruct ys as [|z zs].
      * exists "", "". change (y = y +:+ ""). by rewrite append_nil_r.
      * exists "", (sep +:+ join sep (z :: zs)). done.
    + destruct ys as [|z zs]; [by apply elem_of_nil in Hin|].
      specialize (IH Hin).
      change (join sep (y :: z :: zs)) with (y +:+ sep +:+ join sep (z :: zs)).
      by do 2 apply occursIn_prefix.
Qed.

(** ** User administration *)

Module UserControllerProps.
Import UserController UserSamples.

Local Ltac run_handler :=
  unfold bind, findOne, findAll, ret, throw, liftResult; simpl.

(** What [update] does once the target row has been found. *)
Lemma update_found cc id dto actor w u :
  findOneBy (hasId id) (users w) = Some u →
  update cc id dto actor w =
    if isEnabled (u !! "isRoot") && negb (String.eqb (playgroundId actor) id)
    then (Err (HttpExceptionFactory.unauthorized "暂无权限"), w)
    else (Ok (excludeFields ["password"] (dto ∪ u)),
          snd (clearUserCache_caught cc id (set_users (applyPatch id dto) w))).
Proof.
  intros Hfind. unfold update. run_handler. rewrite Hfind.
  unfold updateById, clearUserCache_caught, set_users.
  destruct (isEnabled (u !! "isRoot")); simpl.
  - destruct (String.eqb (playgroundId actor) id); simpl; [|done].
    rewrite ?Hfind; simpl. by destruct (cc id (permCache w)).
  - rewrite ?Hfind; simpl. by destruct (cc id (permCache w)).
Qed.

Lemma update_missing cc id dto actor w :
  findOneBy (hasId id) (users w) = None →
  update cc id dto actor w = (Err (HttpExceptionFactory.notFound "用户不存在"), w).
Proof. intros Hfind. unfold update. run_handler. by rewrite Hfind. Qed.

Lemma clearUserCache_caught_users cc id w :
  users (snd (clearUserCache_caught cc id w)) = users w.
Proof. unfold clearUserCache_caught. by destruct (cc id (permCache w)). Qed.

(** C1: a stored root user can only be updated by itself: any other actor
    gets an AuthorizationError and nothing changes; the root user itself,
    and any actor on a non-root target, has the patch applied and
    persisted. *)
Theorem update_root_protection cc id dto actor w u :
  findOneBy (hasId id) (users w) = Some u →
  u !! "id" = Some (VStr id) ∧
  (isEnabled (u !! "isRoot") = true → playgroundId actor ≠ id →
     update cc id dto actor w =
       (Err (mkHttpException AuthorizationError "暂无权限"), w)) ∧
  (isEnabled (u !! "isRoot") = true → playgroundId actor = id →
     fst (update cc id dto actor w) = Ok (excludeFields ["password"] (dto ∪ u)) ∧
     users (snd (update cc id dto actor w)) = applyPatch id dto (users w)) ∧
  (isEnabled (u !! "isRoot") = false →
     fst (update cc id dto actor w) = Ok (excludeFields ["password"] (dto ∪ u)) ∧
     users (snd (update cc id dto actor w)) = applyPatch id dto (users w)).
Proof.
  intros Hfind. rewrite (update_found cc id dto actor w u Hfind).
  split.
  { apply findOneBy_Some in Hfind as [_ Hid]. unfold hasId in Hid.
    by apply bool_decide_eq_true in Hid. }
  split; [|split].
  - intros -> Hne. apply String.eqb_neq in Hne. by rewrite Hne.
  - intros -> ->. rewrite String.eqb_refl. simpl.
    by rewrite clearUserCache_caught_users.
  - intros ->. simpl. by rewrite clearUserCache_caught_users.
Qed.

Lemma update_root_protection_witness :
  update cacheOk "u-root" nicknamePatch (mkUserPlayground "u-2") sampleWorld
    = (Err (mkHttpException AuthorizationError "暂无权限"), sampleWorld) ∧
  fst (update cacheOk "u-root" nicknamePatch (mkUserPlayground "u-root") sampleWorld)
    = Ok (excludeFields ["password"] (nicknamePatch ∪ rootUser)) ∧
  fst (update cacheOk "u-2" nicknamePatch (mkUserPlayground "u-root") sampleWorld)
    = Ok (excludeFields ["password"] (nicknamePatch ∪ plainUser)).
Proof.
  split; [|split].
  - destruct (update_root_protection cacheOk "u-root" nicknamePatch
                (mkUserPlayground "u-2") sampleWorld rootUser eq_refl)
      as (_ & Hother & _ & _).
    apply Hother; [reflexivity | discriminate].
  - destruct (update_root_protection cacheOk "u-root" nicknamePatch
                (mkUserPlayground "u-root") sampleWorld rootUser eq_refl)
      as (_ & _ & Hself & _).
    apply Hself; reflexivity.
  - destruct (update_root_protection cacheOk "u-2" nicknamePatch
                (mkUserPlayground "u-root") sampleWorld plainUser eq_refl)
      as (_ & _ & _ & Hplain).
    apply Hplain; reflexivity.
Defined.

(** C3: after a successful update the invalidation of the target's
    permission cache has been requested; a failing invalidation ends in the
    warning log and nowhere else: the value returned by [update] and the
    stored users are the same whatever the invalidation does. *)
Theorem update_cache_invalidation_best_effort cc1 cc2 id dto actor w :
  fst (update cc1 id dto actor w) = fst (update cc2 id dto actor w) ∧
  users (snd (update cc1 id dto actor w)) = users (snd (update cc2 id dto actor w)) ∧
  match update cc1 id dto actor w with
  | (Ok _, w') =>
      cacheCalls w' = cacheCalls w ++ [id] ∧
      permCache w' = fst (cc1 id (permCache w)) ∧
      warnings w' =
        warnings w ++
        match snd (cc1 id (permCache w)) with
        | Some msg => ["清理用户缓存失败: " +:+ msg]
        | None => []
        end
  | (Err _, w') => w' = w
  end.
Proof.
  destruct (findOneBy (hasId id) (users w)) as [u|] eqn:Hfind.
  - rewrite !(update_found _ id dto actor w u Hfind).
    destruct (isEnabled (u !! "isRoot") && negb (String.eqb (playgroundId actor) id)).
    + done.
    + simpl. rewrite !clearUserCache_caught_users. split; [done|]. split; [done|].
      unfold clearUserCache_caught. simpl.
      destruct (cc1 id (permCache w)) as [cache [msg|]]; simpl;
        by rewrite ?app_nil_r.
  - by rewrite !(update_missing _ id dto actor w Hfind).
Qed.

Example update_when_cache_is_down :
  fst (update cacheDown "u-2" nicknamePatch (mkUserPlayground "u-root") sampleWorld)
    = Ok (excludeFields ["password"] (nicknamePatch ∪ plainUser)) ∧
  warnings (snd (update cacheDown "u-2" nicknamePatch (mkUserPlayground "u-root")
                   sampleWorld))
    = ["清理用户缓存失败: ECONNREFUSED"].
Proof. split; reflexivity. Qed.

Lemma batchRemove_unfold ids w :
  batchRemove ids w =
    match rootTargets ids w with
    | [] => (Ok true, set_users (List.filter (λ row, negb (idIn ids row))) w)
    | _ :: _ =>
        (Err (HttpExceptionFactory.unauthorized
                ("超级管理员不可删除: " +:+
                 join ", " (joinItem <$> ((λ user : Obj, user !! "id") <$> rootTargets ids w)))),
         w)
    end.
Proof.
  unfold batchRemove, rootTargets. run_handler.
  by destruct (List.filter _ (List.filter _ (users w))).
Qed.

Lemma rootTargets_elem ids w u :
  u ∈ rootTargets ids w ↔
  u ∈ users w ∧ idIn ids u = true ∧ isEnabled (u !! "isRoot") = true.
Proof.
  unfold rootTargets. rewrite !list_elem_of_In, !filter_In. tauto.
Qed.

Lemma idIn_true ids u id : id ∈ ids → hasId id u = true → idIn ids u = true.
Proof.
  intros Hin Hid. unfold idIn. apply existsb_exists. exists id.
  split; [by apply list_elem_of_In | done].
Qed.

Lemma rootTargets_nil ids w :
  rootTargets ids w = [] ↔
  existsb (λ u, idIn ids u && isEnabled (u !! "isRoot")) (users w) = false.
Proof.
  split.
  - intros Hnil. apply not_true_is_false. intros Hex.
    apply existsb_exists in Hex as (u & Hin & Hu).
    apply andb_true_iff in Hu as [Hids Hroot].
    assert (u ∈ rootTargets ids w) as Hmem.
    { apply rootTargets_elem. by rewrite list_elem_of_In. }
    rewrite Hnil in Hmem. by apply elem_of_nil in Hmem.
  - intros Hex. destruct (rootTargets ids w) as [|u rest] eqn:Heq; [done|].
    assert (u ∈ rootTargets ids w) as Hmem by (rewrite Heq; left).
    apply rootTargets_elem in Hmem as (Hin & Hids & Hroot).
    assert (existsb (λ u, idIn ids u && isEnabled (u !! "isRoot")) (users w) = true)
      as Htrue.
    { apply existsb_exists. exists u. rewrite <- list_elem_of_In.
      by rewrite Hids, Hroot. }
    congruence.
Qed.

(** C2: deleting a stored root user fails with an AuthorizationError and
    deletes nothing; a batch delete with a root user among its targets
    fails with an AuthorizationError whose message contains the id of
    every root target, and deletes nothing; without a root target the
    delete is carried out and the success indicator returned. *)
Theorem delete_root_protection w :
  (∀ id u, findOneBy (hasId id) (users w) = Some u →
     remove id w =
       if isEnabled (u !! "isRoot")
       then (Err (mkHttpException AuthorizationError "暂无权限"), w)
       else (Ok true, set_users (List.filter (λ row, negb (hasId id row))) w)) ∧
  (∀ ids,
     if existsb (λ u, idIn ids u && isEnabled (u !! "isRoot")) (users w)
     then ∃ msg,
            batchRemove ids w = (Err (mkHttpException AuthorizationError msg), w) ∧
            ∀ id u, id ∈ ids → u ∈ users w → hasId id u = true →
                    isEnabled (u !! "isRoot") = true → occursIn id msg
     else batchRemove ids w =
            (Ok true, set_users (List.filter (λ row, negb (idIn ids row))) w)).
Proof.
  split.
  - intros id u Hfind. unfold remove. run_handler. rewrite Hfind.
    by destruct (isEnabled (u !! "isRoot")).
  - intros ids. rewrite batchRemove_unfold.
    destruct (existsb _ (users w)) eqn:Hex.
    + destruct (rootTargets ids w) as [|r rest] eqn:Heq.
      { apply rootTargets_nil in Heq. congruence. }
      eexists. split; [reflexivity|].
      intros id u Hid Hu Hhas Hroot.
      apply occursIn_prefix, join_occursIn.
      assert (u ∈ rootTargets ids w) as Hmem.
      { apply rootTargets_elem. eauto using idIn_true. }
      rewrite Heq in Hmem.
      apply bool_decide_eq_true in Hhas.
      apply list_elem_of_fmap. exists (u !! "id"). split; [by rewrite Hhas|].
      apply list_elem_of_fmap. by exists u.
    + apply rootTargets_nil in Hex. by rewrite Hex.
Qed.

Lemma delete_root_protection_witness :
  remove "u-root" twoRootsWorld
    = (Err (mkHttpException AuthorizationError "暂无权限"), twoRootsWorld) ∧
  fst (remove "u-2" twoRootsWorld) = Ok true ∧
  (∃ msg, batchRemove ["u-9"; "u-2"; "u-root"] twoRootsWorld
            = (Err (mkHttpException AuthorizationError msg), twoRootsWorld) ∧
          occursIn "u-root" msg ∧ occursIn "u-9" msg) ∧
  fst (batchRemove ["u-2"; "u-404"] twoRootsWorld) = Ok true.
Proof.
  destruct (delete_root_protection twoRootsWorld) as [Hone Hmany].
  split; [|split; [|split]].
  - exact (Hone "u-root" rootUser eq_refl).
  - by rewrite (Hone "u-2" plainUser eq_refl).
  - destruct (Hmany ["u-9"; "u-2"; "u-root"]) as (msg & Hres & Hall).
    exists msg. split; [exact Hres|]. split.
    + apply (Hall "u-root" rootUser); [set_solver | set_solver | done | done].
    + apply (Hall "u-9" secondRoot); [set_solver | set_solver | done | done].
  - pose proof (Hmany ["u-2"; "u-404"]) as Hres. simpl in Hres. by rewrite Hres.
Defined.

Example batchRemove_lists_every_root :
  batchRemove ["u-9"; "u-2"; "u-root"] twoRootsWorld
    = (Err (mkHttpException AuthorizationError "超级管理员不可删除: u-root, u-9"),
       twoRootsWorld).
Proof. reflexivity. Qed.

Example batchRemove_deletes_plain_users :
  users (snd (batchRemove ["u-2"; "u-404"] twoRootsWorld)) = [rootUser; secondRoot].
Proof. reflexivity. Qed.

(** *** Login settings *)

Lemma checkMethods_spec valid label methods :
  match checkMethods valid label methods with
  | Ok _ => ∀ method, method ∈ methods → method ∈ valid
  | Err e => kind e = ValidationError ∧ ∃ method, method ∈ methods ∧ method ∉ valid
  end.
Proof.
  induction methods as [|m rest IH]; simpl.
  - intros method Hin. by apply elem_of_nil in Hin.
  - destruct (decide (m ∈ valid)) as [Hm|Hm].
    + rewrite bool_decide_eq_true_2 by done. simpl.
      destruct (checkMethods valid label rest) as [[]|e].
      * intros method [->|Hin]%elem_of_cons; auto.
      * destruct IH as (Hk & method & Hin & Hout).
        split; [done|]. exists method. split; [by right | done].
    + rewrite bool_decide_eq_false_2 by done. simpl.
      split; [done|]. exists m. split; [by left | done].
Qed.

(** C6: [validateLoginSettings] throws a ValidationError exactly for the
    configurations that break one of the four rules and accepts every
    other configuration; it has no effect, so a rejected configuration
    leaves the stored settings and everything else untouched. *)
Theorem validateLoginSettings_exact valid config :
  (violatesLoginRules valid config ↔
     ∃ msg, validateLoginSettings valid config
              = Err (mkHttpException ValidationError msg)) ∧
  (¬ violatesLoginRules valid config ↔
     validateLoginSettings valid config = Ok tt) ∧
  (∀ w, setLoginSettings valid config w =
          match validateLoginSettings valid config with
          | Err e => (Err e, w)
          | Ok _ => (Ok config,
                     mkWorld (users w) (permCache w) (cacheCalls w) (warnings w)
                             (randomUsed w) (Some config))
          end).
Proof.
  assert (violatesLoginRules valid config ∧
            (∃ msg, validateLoginSettings valid config
                      = Err (mkHttpException ValidationError msg)) ∨
          ¬ violatesLoginRules valid config ∧
            validateLoginSettings valid config = Ok tt) as Hcases.
  { unfold validateLoginSettings, violatesLoginRules, isMember, listed.
    destruct config as [login register dflt multi policy]; simpl.
    destruct login as [[|l0 login]|]; simpl;
      [left; split; [tauto | eauto] | | left; split; [tauto | eauto]].
    destruct dflt as [d|]; simpl.
    2:{ left. split; [|eauto]. do 4 right. left. intros (v & l & ? & _); done. }
    destruct (decide (d ∈ l0 :: login)) as [Hd|Hd].
    2:{ rewrite bool_decide_eq_false_2 by done. simpl. left. split; [|eauto].
        do 4 right. left. intros (v & l & [= <-] & [= <-] & Hin). done. }
    rewrite bool_decide_eq_true_2 by done. simpl.
    destruct register as [[|r0 register]|]; simpl;
      [left; split; [tauto | eauto] | | left; split; [tauto | eauto]].
    pose proof (checkMethods_spec valid "无效的登录方式: " (l0 :: login)) as Hl.
    pose proof (checkMethods_spec valid "无效的注册方式: " (r0 :: register)) as Hr.
    simpl in Hl, Hr.
    destruct (if negb (bool_decide (l0 ∈ valid)) then _ else _) as [[]|[k1 m1]].
    - destruct (if negb (bool_decide (r0 ∈ valid)) then _ else _) as [[]|[k2 m2]].
      + right. split; [|done].
        intros [?|[?|[?|[?|[Hmem|(m & Hin & Hout)]]]]]; try done.
        * apply Hmem. eauto.
        * apply Hout. rewrite app_comm_cons in Hin.
          apply elem_of_app in Hin as [Hin|Hin]; auto.
      + destruct Hr as (Hk & m & Hin & Hout). simpl in Hk. subst k2.
        left. split; [|eauto]. do 5 right. exists m.
        split; [|done]. rewrite app_comm_cons. apply elem_of_app. by right.
    - destruct Hl as (Hk & m & Hin & Hout). simpl in Hk. subst k1.
      left. split; [|eauto]. do 5 right. exists m.
      split; [|done]. rewrite app_comm_cons. apply elem_of_app. by left. }
  split; [|split].
  - destruct Hcases as [[Hv Hres]|[Hv Hres]]; [tauto|].
    split; [tauto|]. intros [msg Hmsg]. congruence.
  - destruct Hcases as [[Hv [msg Hres]]|[Hv Hres]]; [|tauto].
    split; [tauto|]. intros Hok. congruence.
  - intros w. unfold setLoginSettings, dict_set_login_settings. run_handler.
    by destruct (validateLoginSettings valid config) as [[]|e].
Qed.

(** The three configurations of the specification, and one that lists an
    unknown method. *)
Lemma validateLoginSettings_exact_witness :
  (∃ msg, validateLoginSettings specLoginTypes noLoginMethod
            = Err (mkHttpException ValidationError msg)) ∧
  (∃ msg, validateLoginSettings specLoginTypes defaultNotAllowed
            = Err (mkHttpException ValidationError msg)) ∧
  (∃ msg, validateLoginSettings specLoginTypes unknownMethod
            = Err (mkHttpException ValidationError msg)) ∧
  ¬ violatesLoginRules specLoginTypes goodSettings.
Proof.
  split; [|split; [|split]].
  - apply (validateLoginSettings_exact specLoginTypes noLoginMethod).
    right. by left.
  - apply (validateLoginSettings_exact specLoginTypes defaultNotAllowed).
    do 4 right. left. intros (v & l & [= <-] & [= <-] & Hin).
    apply list_elem_of_In in Hin. simpl in Hin. by destruct Hin as [?|[]].
  - apply (validateLoginSettings_exact specLoginTypes unknownMethod).
    do 5 right. exists (VStr "fax"). split.
    + apply list_elem_of_In. simpl. tauto.
    + intros Hin. apply list_elem_of_In in Hin. simpl in Hin.
      by destruct Hin as [?|[?|[?|[]]]].
  - apply (validateLoginSettings_exact specLoginTypes goodSettings).
    reflexivity.
Defined.

Example validateLoginSettings_messages :
  validateLoginSettings specLoginTypes noLoginMethod
    = Err (mkHttpException ValidationError "至少需要启用一种登录方式") ∧
  validateLoginSettings specLoginTypes defaultNotAllowed
    = Err (mkHttpException ValidationError "默认登录方式必须在允许的登录方式列表中") ∧
  validateLoginSettings specLoginTypes unknownMethod
    = Err (mkHttpException ValidationError "无效的注册方式: fax") ∧
  validateLoginSettings specLoginTypes goodSettings = Ok tt.
Proof. repeat split. Qed.

(** *** Redaction of the returned projections *)

Lemma service_findOneById_found id exclude w u :
  findOneBy (hasId id) (users w) = Some u →
  service_findOneById id exclude w = (Ok (Some (excludeFields exclude u)), w).
Proof. intros Hfind. unfold service_findOneById. by rewrite Hfind. Qed.

(** The read of a single user drops the credential and the linked
    external identity. *)
Lemma findOneById_redacted id w result :
  fst (findOneById id w) = Ok result →
  result !! "password" = None ∧ result !! "openid" = None.
Proof.
  unfold findOneById, service_findOneById. run_handler.
  destruct (findOneBy (hasId id) (users w)) as [u|]; simpl; [|done].
  intros [= <-]. split.
  - apply lookup_delete_eq.
  - rewrite lookup_delete_ne by done. apply lookup_delete_eq.
Qed.

(** The current-user read drops the credential ... *)
Lemma getUserInfo_no_password perms Menu menus actor w info :
  fst (getUserInfo perms Menu menus actor w) = Ok info →
  info_user info !! "password" = None.
Proof.
  unfold getUserInfo, service_findOneById. run_handler.
  destruct (findOneBy _ (users w)) as [u|]; simpl; [|done].
  intros [= <-]. simpl. rewrite lookup_insert_ne by done. apply lookup_delete_eq.
Qed.

(** ... and keeps the linked external identity as it is stored. *)
Lemma getUserInfo_keeps_openid perms Menu menus actor w u :
  findOneBy (hasId (playgroundId actor)) (users w) = Some u →
  ∃ info, fst (getUserInfo perms Menu menus actor w) = Ok info ∧
          info_user info !! "openid" = u !! "openid".
Proof.
  intros Hfind. unfold getUserInfo, service_findOneById. run_handler.
  rewrite Hfind. simpl. eexists. split; [reflexivity|]. simpl.
  rewrite lookup_insert_ne by done. by rewrite lookup_delete_ne.
Qed.

(** C7: the current-user read of a stored user with a linked external
    identity returns that identity: the [openid] field is part of the
    result of [getUserInfo], while the password is not. *)
Theorem getUserInfo_returns_openid :
  ∃ info,
    getUserInfo samplePermissions (list string) sampleMenus
                (mkUserPlayground "u-2") sampleWorld = (Ok info, sampleWorld) ∧
    info_user info !! "openid" = Some (VStr "wx-2") ∧
    info_user info !! "password" = None ∧
    fst (findOneById "u-2" sampleWorld)
      = Ok (excludeFields ["password"; "openid"] plainUser).
Proof. eexists. repeat split. Qed.

(** *** Automatic password reset *)

Lemma hasId_patch id (patch row : Obj) :
  patch !! "id" = None → hasId id (patch ∪ row) = hasId id row.
Proof. intros Hnone. unfold hasId. by rewrite lookup_union_r. Qed.

Lemma findOneBy_fmap {A} (p : A → bool) (f : A → A) rows :
  (∀ x, p (f x) = p x) → findOneBy p (f <$> rows) = f <$> findOneBy p rows.
Proof.
  intros Hp. unfold findOneBy.
  induction rows as [|r rows IH]; simpl; [done|].
  rewrite Hp. by destruct (p r).
Qed.

Lemma findOneBy_applyPatch id id' patch rows :
  patch !! "id" = None →
  findOneBy (hasId id') (applyPatch id patch rows) =
    (λ row, if hasId id row then patch ∪ row else row)
      <$> findOneBy (hasId id') rows.
Proof.
  intros Hnone. unfold applyPatch. apply findOneBy_fmap.
  intros row. destruct (hasId id row); [by apply hasId_patch | done].
Qed.

Lemma excludeFields_password_patch exclude pw (row : Obj) :
  "password" ∈ exclude →
  excludeFields exclude ({[ "password" := pw ]} ∪ row) = excludeFields exclude row.
Proof.
  intros Hin. apply map_eq. intros k. rewrite !excludeFields_lookup.
  destruct (decide (k ∈ exclude)) as [Hk|Hk].
  - by rewrite !bool_decide_eq_true_2.
  - rewrite !bool_decide_eq_false_2 by done.
    apply lookup_union_r, lookup_singleton_ne. congruence.
Qed.

(** A read that excludes the password returns the same projection before
    and after the password of some user has been replaced. *)
Lemma service_findOneById_after_reset id id' exclude pw w w' :
  "password" ∈ exclude →
  users w' = applyPatch id {[ "password" := pw ]} (users w) →
  fst (service_findOneById id' exclude w') = fst (service_findOneById id' exclude w).
Proof.
  intros Hin Husers. unfold service_findOneById. simpl. f_equal.
  rewrite Husers, findOneBy_applyPatch by done.
  destruct (findOneBy (hasId id') (users w)) as [row|]; simpl; [|done].
  destruct (hasId id row); [|done].
  by rewrite excludeFields_password_patch.
Qed.

Lemma bind_fst_congr {A B} (c : M A) (k : A → M B) w1 w2 :
  fst (c w1) = fst (c w2) →
  (∀ a v1 v2, fst (k a v1) = fst (k a v2)) →
  fst (bind c k w1) = fst (bind c k w2).
Proof.
  intros Hc Hk. unfold bind.
  destruct (c w1) as [[a1|e1] v1], (c w2) as [[a2|e2] v2]; simpl in *;
    try congruence.
  injection Hc as ->. apply Hk.
Qed.

Lemma resetPasswordAuto_found hash rnd id w u :
  findOneBy (hasId id) (users w) = Some u →
  resetPasswordAuto hash rnd id w =
    (Ok (rnd (randomUsed w)),
     mkWorld (applyPatch id {[ "password" := VStr (hash (rnd (randomUsed w))) ]} (users w))
             (permCache w) (cacheCalls w) (warnings w)
             (S (randomUsed w)) (loginSettings w)).
Proof.
  intros Hfind.
  unfold resetPasswordAuto, generateRandomPassword, resetPassword, updateById.
  run_handler. by rewrite Hfind.
Qed.

(** C8: for a stored user, [resetPasswordAuto] draws a new credential from
    the random source, stores its hash as the password of that user through
    [resetPassword], and returns the credential itself; every later read
    ([findOneById], [getUserInfo]) returns exactly what it returned before
    the reset, so the plaintext cannot be read back. *)
Theorem resetPasswordAuto_returns_credential_once hash rnd id w u :
  findOneBy (hasId id) (users w) = Some u →
  let password := rnd (randomUsed w) in
  let w' := snd (resetPasswordAuto hash rnd id w) in
  fst (resetPasswordAuto hash rnd id w) = Ok password ∧
  users w' = applyPatch id {[ "password" := VStr (hash password) ]} (users w) ∧
  findOneBy (hasId id) (users w')
    = Some ({[ "password" := VStr (hash password) ]} ∪ u) ∧
  randomUsed w' = S (randomUsed w) ∧
  (∀ id', fst (findOneById id' w') = fst (findOneById id' w)) ∧
  (∀ perms Menu menus actor,
     fst (getUserInfo perms Menu menus actor w')
       = fst (getUserInfo perms Menu menus actor w)).
Proof.
  intros Hfind password w'. subst password w'.
  rewrite (resetPasswordAuto_found hash rnd id w u Hfind). simpl.
  split; [done|]. split; [done|]. split.
  { rewrite findOneBy_applyPatch, Hfind by done. simpl.
    apply findOneBy_Some in Hfind as [_ Hid]. by rewrite Hid. }
  split; [done|]. split.
  - intros id'. unfold findOneById. apply bind_fst_congr; [|by intros [r|] v1 v2].
    apply (service_findOneById_after_reset id id' ["password"; "openid"]
             (VStr (hash (rnd (randomUsed w)))) w); [left | reflexivity].
  - intros perms Menu menus actor. unfold getUserInfo.
    apply bind_fst_congr; [|by intros [r|] v1 v2].
    apply (service_findOneById_after_reset id (playgroundId actor) ["password"]
             (VStr (hash (rnd (randomUsed w)))) w); [left | reflexivity].
Qed.

Lemma resetPasswordAuto_returns_credential_once_witness :
  fst (resetPasswordAuto sampleHash sampleRandom "u-2" sampleWorld) = Ok "Xk3-9fQz" ∧
  findOneBy (hasId "u-2")
            (users (snd (resetPasswordAuto sampleHash sampleRandom "u-2" sampleWorld)))
    = Some ({[ "password" := VStr "bcrypt$Xk3-9fQz" ]} ∪ plainUser) ∧
  fst (findOneById "u-2" (snd (resetPasswordAuto sampleHash sampleRandom "u-2" sampleWorld)))
    = fst (findOneById "u-2" sampleWorld).
Proof.
  destruct (resetPasswordAuto_returns_credential_once
              sampleHash sampleRandom "u-2" sampleWorld plainUser eq_refl)
    as (Hres & _ & Hstored & _ & Hread & _).
  split; [exact Hres|]. split; [exact Hstored|]. exact (Hread "u-2").
Defined.

End UserControllerProps.

(** ** More on user administration *)

Module UserControllerMoreProps.
Import UserController UserSamples LoginSettings UserControllerProps.

Local Ltac run_handler :=
  unfold bind, findOne, findAll, ret, throw, liftResult; simpl.

(** X26: the default login settings pass the validation, whatever the values
    of the login types are. *)
Theorem getDefaultLoginSettings_valid LOGIN_TYPE :
  validateLoginSettings (loginTypeValues LOGIN_TYPE)
                        (getDefaultLoginSettings LOGIN_TYPE) = Ok tt.
Proof.
  unfold validateLoginSettings, getDefaultLoginSettings, loginTypeValues. simpl.
  rewrite !bool_decide_eq_true_2; [done|..];
    repeat (first [by left | right]).
Qed.

(** X27: the login settings that were stored are the ones read back; settings
    that were rejected leave the answer as it was; before anything is
    stored the answer is the default. *)
Theorem setLoginSettings_getLoginSettings LOGIN_TYPE config w :
  fst (getLoginSettings LOGIN_TYPE
         (snd (setLoginSettings (loginTypeValues LOGIN_TYPE) config w)))
  = match validateLoginSettings (loginTypeValues LOGIN_TYPE) config with
    | Ok _ => Ok config
    | Err _ => fst (getLoginSettings LOGIN_TYPE w)
    end ∧
  (loginSettings w = None →
   fst (getLoginSettings LOGIN_TYPE w) = Ok (getDefaultLoginSettings LOGIN_TYPE)).
Proof.
  split.
  - unfold setLoginSettings, dict_set_login_settings, getLoginSettings. run_handler.
    by destruct (validateLoginSettings _ config) as [[]|e].
  - intros Hnone. unfold getLoginSettings. by rewrite Hnone.
Qed.

(** X25: the validation names the first method that is not a login type: the
    methods before it are accepted, the ones after it are not looked at. *)
Theorem checkMethods_first_invalid valid label accepted method rest :
  (∀ m, m ∈ accepted → m ∈ valid) → method ∉ valid →
  checkMethods valid label (accepted ++ method :: rest)
    = Err (mkHttpException ValidationError (label +:+ templateString (Some method))).
Proof.
  intros Haccepted Hmethod.
  induction accepted as [|m accepted IH]; simpl.
  - by rewrite bool_decide_eq_false_2.
  - rewrite bool_decide_eq_true_2 by (apply Haccepted; by left). simpl.
    apply IH. intros m' Hm'. apply Haccepted. by right.
Qed.

Lemma checkMethods_first_invalid_witness :
  checkMethods specLoginTypes "无效的登录方式: "
               ([VStr "account"] ++ VStr "fax" :: [VStr "telex"])
    = Err (mkHttpException ValidationError "无效的登录方式: fax").
Proof.
  apply (checkMethods_first_invalid specLoginTypes "无效的登录方式: "
           [VStr "account"] (VStr "fax") [VStr "telex"]).
  - intros m Hm. apply list_elem_of_In in Hm. simpl in Hm.
    destruct Hm as [<-|[]]. by left.
  - intros Hin. apply list_elem_of_In in Hin. simpl in Hin.
    by destruct Hin as [?|[?|[?|[]]]].
Defined.

(** X21: no read and no update returns the stored password, not even an update
    whose patch carries one; the read of a single user does not return the
    linked external identity either. *)
Theorem password_never_returned :
  (∀ perms Menu menus actor w info,
     fst (getUserInfo perms Menu menus actor w) = Ok info →
     info_user info !! "password" = None) ∧
  (∀ id w result,
     fst (findOneById id w) = Ok result →
     result !! "password" = None ∧ result !! "openid" = None) ∧
  (∀ cc id dto actor w result,
     fst (update cc id dto actor w) = Ok result → result !! "password" = None).
Proof.
  split; [|split].
  - intros perms Menu menus actor w info. apply getUserInfo_no_password.
  - intros id w result. apply findOneById_redacted.
  - intros cc id dto actor w result.
    destruct (findOneBy (hasId id) (users w)) as [u|] eqn:Hfind.
    + rewrite (update_found cc id dto actor w u Hfind).
      destruct (isEnabled (u !! "isRoot") && negb (String.eqb (playgroundId actor) id));
        simpl; [done|].
      intros [= <-]. apply lookup_delete_eq.
    + by rewrite (update_missing cc id dto actor w Hfind).
Qed.

(** X22: an id that no stored user has: the update, the deletion and both
    reads fail with a NotFoundError and change nothing; no invalidation of
    the permission cache is requested. *)
Theorem unknown_user_not_found cc perms Menu menus id dto actor w :
  findOneBy (hasId id) (users w) = None →
  update cc id dto actor w = (Err (mkHttpException NotFoundError "用户不存在"), w) ∧
  remove id w = (Err (mkHttpException NotFoundError "用户不存在"), w) ∧
  findOneById id w = (Err (mkHttpException NotFoundError "用户不存在"), w) ∧
  getUserInfo perms Menu menus (mkUserPlayground id) w
    = (Err (mkHttpException NotFoundError "用户不存在"), w).
Proof.
  intros Hfind. split; [by apply update_missing|].
  unfold remove, findOneById, getUserInfo, service_findOneById. run_handler.
  by rewrite Hfind.
Qed.

Lemma unknown_user_not_found_witness :
  update cacheOk "u-404" nicknamePatch (mkUserPlayground "u-root") sampleWorld
    = (Err (mkHttpException NotFoundError "用户不存在"), sampleWorld) ∧
  remove "u-404" sampleWorld
    = (Err (mkHttpException NotFoundError "用户不存在"), sampleWorld).
Proof.
  destruct (unknown_user_not_found cacheOk samplePermissions (list string) sampleMenus
              "u-404" nicknamePatch (mkUserPlayground "u-root") sampleWorld eq_refl)
    as (Hupdate & Hremove & _).
  by split.
Defined.





End UserControllerMoreProps.

(** ** Application restart *)

Module SystemServiceProps.
Import SystemService SystemSamples.

Lemma restartApplication_idle env exec s :
  isRestarting s = false →
  restartApplication env exec s =
    (accepted,
     mkState true (awaiting s)
       (timers s ++ [mkTimer 1000 (checkIfRunningWithPm2 env exec) (pm2AppName env)])
       (logs s ++ [(LOG, "正在重启应用，当前端口: "
                         +:+ JsNum_toString (parseInt (orElse (SERVER_PORT env) "4090") 10)
                         +:+ "...")])
       (if probeQueriesPm2 env then commands s ++ [pm2ListCommand] else commands s)
       (status s)).
Proof.
  intros Hidle. unfold restartApplication, restart_begin, restart_resume.
  rewrite Hidle. by destruct (probeQueriesPm2 env).
Qed.

Lemma restartApplication_pending env exec s :
  isRestarting s = true →
  restartApplication env exec s =
    (declined, logger WARN "应用正在重启中，请勿重复操作" s).
Proof.
  intros Hpending. unfold restartApplication, restart_begin. by rewrite Hpending.
Qed.

(** The callback of a timer leaves the suspended calls alone, removes
    nothing but itself from the timers, and touches the restart flag only
    when it ends the process. *)
Lemma fire_frame exec t rest s :
  status s = Running →
  awaiting (fire exec t rest s) = awaiting s ∧
  timers (fire exec t rest s) = rest ∧
  (status (fire exec t rest s) = Running →
   isRestarting (fire exec t rest s) = isRestarting s).
Proof.
  intros Hrun. unfold fire, scheduledAction, try_catch, act_bind, act_log,
    execPromise_catch, process_exit.
  destruct (timer_isPm2 t); simpl.
  - destruct (exec ("pm2 restart " +:+ timer_pm2AppName t)); simpl;
      (split; [reflexivity|]); (split; [reflexivity|]); intros Hst;
      first [reflexivity | discriminate Hst].
  - split; [reflexivity|]. split; [reflexivity|]. intros Hst. discriminate Hst.
Qed.

Lemma scheduled_snoc tr l :
  scheduled (tr ++ [l]) =
    (scheduled tr + match l with RequestAccepted => 1 | _ => 0 end)%nat.
Proof.
  unfold scheduled. rewrite List.filter_app, length_app. by destruct l.
Qed.

Lemma restart_invariant_step env exec tr s l s' :
  restart_invariant tr s → step env exec s l s' → restart_invariant (tr ++ [l]) s'.
Proof.
  intros (Hone & Htimers & Hidle) Hstep. unfold restart_invariant.
  rewrite scheduled_snoc.
  destruct Hstep as [s s' response Hrun Hbegin | s s' Hrun Hbegin
                    | s Hrun Hsusp | s before t after Hrun Hts].
  - unfold restart_begin in Hbegin.
    destruct (isRestarting s) eqn:Hflag; [|discriminate Hbegin].
    injection Hbegin as _ <-. simpl.
    split; [lia|]. split; [lia|].
    intros _ Hdown. rewrite Hflag in Hdown. discriminate Hdown.
  - unfold restart_begin in Hbegin.
    destruct (isRestarting s) eqn:Hflag; [discriminate Hbegin|].
    injection Hbegin as <-. simpl.
    destruct (Hidle Hrun eq_refl) as [Hz Hs].
    split; [lia|]. split; [lia|].
    intros _ Hdown. discriminate Hdown.
  - unfold restart_resume. simpl.
    assert (awaiting (if probeQueriesPm2 env then record_command pm2ListCommand s
                      else s) = awaiting s) as Hsame
      by (by destruct (probeQueriesPm2 env)).
    assert (timers (if probeQueriesPm2 env then record_command pm2ListCommand s
                    else s) = timers s) as Hsamet
      by (by destruct (probeQueriesPm2 env)).
    assert (isRestarting (if probeQueriesPm2 env then record_command pm2ListCommand s
                          else s) = isRestarting s) as Hsamef
      by (by destruct (probeQueriesPm2 env)).
    rewrite Hsame, Hsamet, Hsamef, length_app. simpl.
    split; [lia|]. split; [lia|].
    intros _ Hdown. destruct (Hidle Hrun Hdown). lia.
  - destruct (fire_frame exec t (before ++ after) s Hrun) as (Ha & Ht & Hflag).
    rewrite Ha, Ht. rewrite Hts, length_app in Htimers. simpl in Htimers.
    rewrite length_app.
    split; [lia|]. split; [lia|].
    intros Hrun' Hdown. rewrite (Hflag Hrun') in Hdown.
    destruct (Hidle Hrun Hdown). lia.
Qed.

Lemma restart_invariant_run env exec s0 tr s :
  restart_invariant [] s0 → run env exec s0 tr s → restart_invariant tr s.
Proof.
  intros Hinit Hrun.
  induction Hrun as [s0|s0 tr s' l s'' Hrun IH Hstep]; [done|].
  eauto using restart_invariant_step.
Qed.

Lemma restart_invariant_initial : restart_invariant [] initialState.
Proof.
  unfold restart_invariant, scheduled. simpl.
  split; [lia|]. split; [lia|]. intros _ _. split; reflexivity.
Qed.

(** C4: from the idle state a restart request raises the flag, registers
    one timer with the restart action and returns the accepted response
    while that timer is still waiting; with the flag up a request returns
    the declined response and registers nothing.  Over the whole life of
    the process, however requests, probes and timers interleave, at most
    one restart action is ever scheduled. *)
Theorem restart_at_most_once env exec :
  (∀ s, isRestarting s = false →
     ∃ s', restartApplication env exec s = (accepted, s') ∧
           isRestarting s' = true ∧
           timers s' = timers s ++
             [mkTimer 1000 (checkIfRunningWithPm2 env exec) (pm2AppName env)] ∧
           awaiting s' = awaiting s ∧ status s' = status s) ∧
  (∀ s, isRestarting s = true →
     ∃ s', restartApplication env exec s = (declined, s') ∧
           isRestarting s' = true ∧ timers s' = timers s ∧
           awaiting s' = awaiting s ∧ commands s' = commands s ∧
           status s' = status s) ∧
  (∀ tr s, run env exec initialState tr s →
           (scheduled tr ≤ 1)%nat ∧ (awaiting s + length (timers s) ≤ 1)%nat).
Proof.
  split; [|split].
  - intros s Hidle. rewrite (restartApplication_idle env exec s Hidle).
    eexists. split; [reflexivity|]. done.
  - intros s Hpending. rewrite (restartApplication_pending env exec s Hpending).
    eexists. split; [reflexivity|]. done.
  - intros tr s Hrun.
    destruct (restart_invariant_run env exec initialState tr s
                restart_invariant_initial Hrun) as (Hone & Htimers & _).
    lia.
Qed.

Lemma restart_at_most_once_witness :
  fst (restartApplication bareEnv noPm2 initialState) = accepted ∧
  fst (restartApplication bareEnv noPm2
         (snd (restartApplication bareEnv noPm2 initialState))) = declined ∧
  length (timers (snd (restartApplication bareEnv noPm2
                         (snd (restartApplication bareEnv noPm2 initialState))))) = 1%nat.
Proof.
  destruct (restart_at_most_once bareEnv noPm2) as (Hidle & Hpending & _).
  destruct (Hidle initialState eq_refl) as (s1 & Hfirst & Hflag & Htimers & _).
  destruct (Hpending s1 Hflag) as (s2 & Hsecond & _ & Hsame & _).
  rewrite Hfirst. simpl. rewrite Hsecond. simpl.
  split; [done|]. split; [done|]. by rewrite Hsame, Htimers.
Defined.

(** Two requests arrive while the first one is still probing, a third
    after the timer was registered; the timer then ends the process. *)
Example restart_interleaved :
  ∃ s, run bareEnv noPm2 initialState
           [RequestSuspended; RequestDeclined; RequestAccepted; RequestDeclined;
            TimerFired] s ∧
       status s = Exited 0 ∧ timers s = [].
Proof.
  eexists. split.
  - eapply (run_step _ _ _ [_; _; _; _]).
    + eapply (run_step _ _ _ [_; _; _]).
      * eapply (run_step _ _ _ [_; _]).
        -- eapply (run_step _ _ _ [_]).
           ++ eapply (run_step _ _ _ []); [apply run_nil|].
              apply step_suspended; reflexivity.
           ++ eapply step_declined; reflexivity.
        -- apply step_accepted; [reflexivity | simpl; lia].
      * eapply step_declined; reflexivity.
    + eapply (step_fired _ _ _ [] _ []); reflexivity.
  - split; reflexivity.
Qed.

(** *** The scheduled action *)

(** C5: when the supervisor was detected the action issues the restart
    command; if the command is rejected, or if no supervisor was detected,
    the process exits with code 0; if the action throws, the flag is reset
    and the process exits with code 1.  The action never ends with an
    uncaught error. *)
Theorem scheduled_action_fallbacks env exec s :
  let name := pm2AppName env in
  let out := scheduledAction exec (checkIfRunningWithPm2 env exec) name s in
  if checkIfRunningWithPm2 env exec then
    commands (finalState out) = commands s ++ ["pm2 restart " +:+ name] ∧
    match exec ("pm2 restart " +:+ name) with
    | ExecResolved _ =>
        ∃ s', out = Returned tt s' ∧ status s' = status s ∧
              isRestarting s' = isRestarting s
    | ExecRejected _ =>
        ∃ s', out = ProcessExit 0 s' ∧ status s' = Exited 0
    | ExecThrew _ =>
        ∃ s', out = ProcessExit 1 s' ∧ status s' = Exited 1 ∧
              isRestarting s' = false
    end
  else
    ∃ s', out = ProcessExit 0 s' ∧ status s' = Exited 0 ∧
          commands s' = commands s.
Proof.
  intros name out. subst out.
  unfold scheduledAction, try_catch, act_bind, act_log, execPromise_catch,
    process_exit.
  destruct (checkIfRunningWithPm2 env exec); simpl.
  - destruct (exec ("pm2 restart " +:+ name)); simpl; eauto 10.
  - eauto 10.
Qed.

Example scheduled_action_pm2_rejected :
  scheduledAction (λ _, ExecRejected "not found") true "console" initialState
  = ProcessExit 0
      (mkState false 0 []
         [(LOG, "检测到PM2环境，通过PM2命令重启应用 console...");
          (WARN, "PM2重启命令失败: not found，尝试使用进程退出方式重启")]
         ["pm2 restart console"] (Exited 0)).
Proof. reflexivity. Qed.

Example scheduled_action_throws :
  scheduledAction pm2SpawnFails (checkIfRunningWithPm2 pm2Env pm2SpawnFails)
                  (pm2AppName pm2Env)
                  (mkState true 0 [] [] [] Running)
  = ProcessExit 1
      (mkState false 0 []
         [(LOG, "检测到PM2环境，通过PM2命令重启应用 console...");
          (ERROR, "重启过程中发生错误: spawn EAGAIN")]
         ["pm2 restart console"] (Exited 1)).
Proof. reflexivity. Qed.

Example restart_logs_port :
  logs (snd (restartApplication pm2Env pm2Works initialState))
  = [(LOG, "正在重启应用，当前端口: 8080...")].
Proof. reflexivity. Qed.

Lemma guardPassed_snoc tr l :
  guardPassed (tr ++ [l]) =
    (guardPassed tr + match l with RequestSuspended => 1 | _ => 0 end)%nat.
Proof.
  unfold guardPassed. rewrite List.filter_app, length_app. by destruct l.
Qed.

Lemma restart_begin_flag env s :
  isRestarting (snd (restart_begin env s)) = true ∧
  status (snd (restart_begin env s)) = status s.
Proof. unfold restart_begin. by destruct (isRestarting s) eqn:Hflag. Qed.

Lemma restart_resume_flag env exec s :
  isRestarting (snd (restart_resume env exec s)) = isRestarting s ∧
  status (snd (restart_resume env exec s)) = status s.
Proof. unfold restart_resume. by destruct (probeQueriesPm2 env). Qed.

(** X28: while the process runs, the restart flag is up exactly when a request
    has passed the guard, which happens at most once: the flag never comes
    down in a running process, and every later request is declined. *)
Theorem restart_flag_stays_up env exec tr s :
  run env exec initialState tr s →
  (guardPassed tr ≤ 1)%nat ∧
  (status s = Running → (isRestarting s = true ↔ guardPassed tr = 1%nat)).
Proof.
  intros Hrun.
  remember initialState as s0 eqn:Hs0.
  induction Hrun as [s0|s0 tr s' l s'' Hrun IH Hstep].
  - subst s0. split; [unfold guardPassed; simpl; lia|]. intros _. split; discriminate.
  - destruct (IH Hs0) as [Hone Hflag]. rewrite guardPassed_snoc.
    destruct Hstep as [s1 s2 response Hrunning Hbegin | s1 s2 Hrunning Hbegin
                      | s1 Hrunning Hsusp | s1 before t after Hrunning Hts].
    + pose proof (restart_begin_flag env s1) as [Hup Hst]. rewrite Hbegin in Hup, Hst.
      simpl in Hup, Hst. unfold restart_begin in Hbegin.
      destruct (isRestarting s1) eqn:Hold; [|discriminate Hbegin].
      split; [lia|]. intros _. rewrite Hup, Nat.add_0_r. split; [|done].
      intros _. by apply Hflag.
    + pose proof (restart_begin_flag env s1) as [Hup Hst]. rewrite Hbegin in Hup, Hst.
      simpl in Hup, Hst. unfold restart_begin in Hbegin.
      destruct (isRestarting s1) eqn:Hold; [discriminate Hbegin|].
      assert (guardPassed tr ≠ 1%nat) as Hzero.
      { intros Hp. apply Hflag in Hp; [congruence | done]. }
      split; [lia|]. intros _. rewrite Hup. split; [lia | done].
    + destruct (restart_resume_flag env exec s1) as [Hsame Hst].
      rewrite Nat.add_0_r. split; [done|]. rewrite Hsame, Hst. exact Hflag.
    + destruct (fire_frame exec t (before ++ after) s1 Hrunning) as (_ & _ & Hsame).
      rewrite Nat.add_0_r. split; [done|]. intros Hstill.
      rewrite (Hsame Hstill). by apply Hflag.
Qed.

Lemma restart_flag_stays_up_witness :
  ∃ s, run pm2Env pm2Works initialState
           [RequestSuspended; RequestAccepted; TimerFired; RequestDeclined] s ∧
       status s = Running ∧ isRestarting s = true.
Proof.
  assert (∃ s, run pm2Env pm2Works initialState
                   [RequestSuspended; RequestAccepted; TimerFired; RequestDeclined] s ∧
               status s = Running) as (s & Hrun & Hstatus).
  { eexists. split.
    - eapply (run_step _ _ _ [_; _; _]).
      + eapply (run_step _ _ _ [_; _]).
        * eapply (run_step _ _ _ [_]).
          -- eapply (run_step _ _ _ []); [apply run_nil|].
             apply step_suspended; reflexivity.
          -- apply step_accepted; [reflexivity | simpl; lia].
        * eapply (step_fired _ _ _ [] _ []); reflexivity.
      + eapply step_declined; reflexivity.
    - reflexivity. }
  exists s. split; [exact Hrun|]. split; [exact Hstatus|].
  destruct (restart_flag_stays_up pm2Env pm2Works _ s Hrun) as [_ Hflag].
  by apply Hflag.
Defined.

(** X29: without a sign of the supervisor (no marker in the environment, and the
    query of the process list fails or prints nothing), a restart request
    followed by its timer ends the process with exit code 0, and no restart
    command is ever issued. *)
Theorem restart_without_supervisor env exec s :
  isRestarting s = false →
  truthy (PM2_HOME env) = false → truthy (PM2_JSON_PROCESSING env) = false →
  truthy (PM2_CLI env) = false →
  match exec pm2ListCommand with
  | ExecResolved stdout => trim stdout = ""
  | _ => True
  end →
  let '(response, s1) := restartApplication env exec s in
  response = accepted ∧
  ∃ t, timers s1 = timers s ++ [t] ∧
       status (fire exec t (timers s) s1) = Exited 0 ∧
       commands (fire exec t (timers s) s1) = commands s ++ [pm2ListCommand].
Proof.
  intros Hidle Hhome Hjson Hcli Hquery.
  rewrite (restartApplication_idle env exec s Hidle).
  split; [done|]. eexists. split; [reflexivity|].
  assert (checkIfRunningWithPm2 env exec = false) as Hprobe.
  { unfold checkIfRunningWithPm2. rewrite Hhome, Hjson, Hcli. simpl.
    destruct (exec pm2ListCommand); [|done..]. by rewrite Hquery. }
  assert (probeQueriesPm2 env = true) as Hqueries.
  { unfold probeQueriesPm2. by rewrite Hhome, Hjson, Hcli. }
  unfold fire. simpl. rewrite Hprobe, Hqueries. done.
Qed.

Lemma restart_without_supervisor_witness :
  let '(response, s1) := restartApplication bareEnv noPm2 initialState in
  response = accepted ∧
  ∃ t, timers s1 = [] ++ [t] ∧
       status (fire noPm2 t [] s1) = Exited 0 ∧
       commands (fire noPm2 t [] s1) = [] ++ [pm2ListCommand].
Proof.
  apply (restart_without_supervisor bareEnv noPm2 initialState); done.
Defined.

End SystemServiceProps.

(** ** Payment configuration lookup *)

Module PayconfigProps.
Import PayconfigService PayconfigSamples.

(** C10: [getPayconfig] returns a stored configuration of the requested
    pay type whose [isEnable] flag is set, and fails with a NotFoundError
    exactly when no such configuration is stored, also when a disabled one
    of that pay type is. *)
Theorem getPayconfig_enabled_only type repository :
  match getPayconfig type repository with
  | Ok payconfig =>
      payconfig ∈ repository ∧ payType payconfig = type ∧
      isEnable payconfig = BooleanNumber_YES
  | Err e =>
      e = mkHttpException NotFoundError "支付配置不存在" ∧
      ∀ payconfig, payconfig ∈ repository → payType payconfig = type →
                   isEnable payconfig ≠ BooleanNumber_YES
  end.
Proof.
  unfold getPayconfig.
  destruct (findOneBy _ repository) as [payconfig|] eqn:Hfind.
  - apply findOneBy_Some in Hfind as [Hin Hp].
    apply andb_true_iff in Hp as [He Ht].
    apply bool_decide_eq_true in He, Ht. done.
  - split; [done|]. intros payconfig Hin Ht He.
    rewrite findOneBy_None in Hfind. specialize (Hfind payconfig Hin).
    simpl in Hfind. by rewrite !bool_decide_eq_true_2 in Hfind.
Qed.

Example getPayconfig_skips_disabled :
  getPayconfig 1 [wechatOff; alipayOn; wechatOn] = Ok wechatOn ∧
  getPayconfig 1 [wechatOff; alipayOn]
    = Err (mkHttpException NotFoundError "支付配置不存在") ∧
  getPayconfig 2 [wechatOff; alipayOn] = Ok alipayOn.
Proof. repeat split. Qed.

End PayconfigProps.

(** ** Date grouping *)

Module DateUtilProps.
Import DateUtil DateSamples.

Example getDateGroup_samples :
  getDateGroup utc dateOfTimestamp sampleNow (Some (VNum sampleNow)) = "today" ∧
  getDateGroup utc dateOfTimestamp sampleNow (at_ "a" 2026 10 31 23 !! "updatedAt") = "yesterday" ∧
  getDateGroup utc dateOfTimestamp sampleNow (at_ "a" 2026 10 25 1 !! "updatedAt") = "week" ∧
  getDateGroup utc dateOfTimestamp sampleNow (at_ "a" 2026 10 2 1 !! "updatedAt") = "month" ∧
  getDateGroup utc dateOfTimestamp sampleNow (at_ "a" 2026 10 1 1 !! "updatedAt") = "2026-10" ∧
  getDateGroup utc dateOfTimestamp sampleNow (at_ "a" 2025 2 28 1 !! "updatedAt") = "2025-2" ∧
  getDateGroup utc dateOfTimestamp sampleNow (at_ "a" 2026 11 5 1 !! "updatedAt") = "week" ∧
  getDateGroup utc dateOfTimestamp sampleNow (at_ "a" (-1) 6 15 1 !! "updatedAt") = "-1-6" ∧
  getDateGroup utc dateOfTimestamp sampleNow (undated "a" !! "updatedAt") = "NaN-NaN".
Proof. vm_compute. repeat split. Qed.

Example getGroupWeight_samples :
  getGroupWeight "today" = Some 1 ∧ getGroupWeight "2026-10" = Some 203610 ∧
  getGroupWeight "2025-2" = Some 203502 ∧ getGroupWeight "-1-6" = None ∧
  getGroupWeight "NaN-NaN" = None ∧ getGroupWeight "older" = Some 9999.
Proof. vm_compute. repeat split. Qed.

(** *** The sort *)

Lemma insertSorted_perm {A} (compare : A → A → JsNum) x sorted :
  insertSorted compare x sorted ≡ₚ x :: sorted.
Proof.
  induction sorted as [|y rest IH]; simpl; [done|].
  destruct (goesAfter (compare x y)); [|done].
  rewrite IH. apply Permutation_swap.
Qed.

Lemma jsSort_perm {A} (compare : A → A → JsNum) xs : jsSort compare xs ≡ₚ xs.
Proof.
  induction xs as [|x xs IH]; simpl; [done|].
  unfold jsSort in *. simpl. by rewrite insertSorted_perm, IH.
Qed.

Lemma jsSort_elem {A} (compare : A → A → JsNum) xs x :
  x ∈ jsSort compare xs ↔ x ∈ xs.
Proof. by rewrite jsSort_perm. Qed.

Lemma insertSorted_sorted {A} (R : relation A) (compare : A → A → JsNum) x sorted :
  (∀ a b c, R a b → R b c → R a c) →
  (∀ y, y ∈ sorted → if goesAfter (compare x y) then R y x else R x y) →
  StronglySorted R sorted → StronglySorted R (insertSorted compare x sorted).
Proof.
  intros Htrans.
  induction sorted as [|y rest IH]; intros Hcmp Hsorted; simpl.
  - repeat constructor.
  - apply StronglySorted_inv in Hsorted as [Hrest Hy].
    pose proof (Hcmp y ltac:(left)) as Hxy.
    destruct (goesAfter (compare x y)).
    + constructor.
      * apply IH; [|done]. intros z Hz. apply Hcmp. by right.
      * rewrite insertSorted_perm. by constructor.
    + constructor; [by constructor|].
      constructor; [done|].
      eapply Forall_impl; [exact Hy|]. intros z Hz. by apply (Htrans x y z).
Qed.

(** A comparator that agrees with a transitive order on the elements of
    the list sorts the list by that order. *)
Lemma jsSort_sorted {A} (R : relation A) (compare : A → A → JsNum) xs :
  (∀ a b c, R a b → R b c → R a c) →
  (∀ x y, x ∈ xs → y ∈ xs → if goesAfter (compare x y) then R y x else R x y) →
  StronglySorted R (jsSort compare xs).
Proof.
  intros Htrans.
  induction xs as [|x xs IH]; intros Hcmp.
  - constructor.
  - change (jsSort compare (x :: xs))
      with (insertSorted compare x (jsSort compare xs)).
    apply insertSorted_sorted; [done| |].
    + intros y Hy. apply Hcmp; [by left|]. right. by apply jsSort_elem in Hy.
    + apply IH. intros a b Ha Hb. apply Hcmp; by right.
Qed.

(** A comparator that never asks for an exchange leaves the list as it
    is. *)
Lemma jsSort_id {A} (compare : A → A → JsNum) xs :
  (∀ x y, x ∈ xs → y ∈ xs → goesAfter (compare x y) = false) →
  jsSort compare xs = xs.
Proof.
  induction xs as [|x xs IH]; intros Hcmp; [done|].
  change (jsSort compare (x :: xs))
    with (insertSorted compare x (jsSort compare xs)).
  rewrite IH by (intros a b Ha Hb; apply Hcmp; by right).
  destruct xs as [|y rest]; [done|]. simpl.
  rewrite Hcmp; [done | by left | by right; left].
Qed.

(** *** The groups *)

Lemma groupsPush_keys k item groups :
  (groupsPush k item groups).*1 =
    if bool_decide (k ∈ groups.*1) then groups.*1 else groups.*1 ++ [k].
Proof.
  induction groups as [|[k' entries] rest IH]; csimpl; [done|].
  destruct (String.eqb k' k) eqn:Heq; csimpl.
  - apply String.eqb_eq in Heq as ->.
    by rewrite bool_decide_eq_true_2 by left.
  - apply String.eqb_neq in Heq. rewrite IH.
    destruct (decide (k ∈ rest.*1)) as [Hin|Hout].
    + by rewrite !bool_decide_eq_true_2 by (done || by right).
    + rewrite !bool_decide_eq_false_2; [done | | done].
      intros [?|?]%elem_of_cons; congruence.
Qed.

Lemma groupsPush_NoDup k item groups :
  NoDup groups.*1 → NoDup (groupsPush k item groups).*1.
Proof.
  intros Hnodup. rewrite groupsPush_keys. case_bool_decide as Hin; [done|].
  apply NoDup_app. split; [done|]. split.
  - intros x Hx [->|[]%elem_of_nil]%elem_of_cons. done.
  - apply NoDup_singleton.
Qed.

Lemma groupsPush_concat k item groups :
  concat (groupsPush k item groups).*2 ≡ₚ concat groups.*2 ++ [item].
Proof.
  induction groups as [|[k' entries] rest IH]; csimpl; [done|].
  destruct (String.eqb k' k); csimpl.
  - rewrite <- !app_assoc. f_equiv. apply Permutation_app_comm.
  - by rewrite IH, app_assoc.
Qed.

(** Where an entry of the map after a push comes from. *)
Lemma groupsPush_elem k0 item groups k entries :
  (k, entries) ∈ groupsPush k0 item groups →
  (k ≠ k0 ∧ (k, entries) ∈ groups) ∨
  (k = k0 ∧ ∃ before, entries = before ++ [item] ∧
                      ((k0, before) ∈ groups ∨ before = [] ∧ k0 ∉ groups.*1)) ∨
  (k = k0 ∧ (k, entries) ∈ groups ∧ ¬ NoDup groups.*1).
Proof.
  induction groups as [|[k' entries'] rest IH]; csimpl; intros Hin.
  - apply list_elem_of_singleton in Hin as [= -> ->].
    right. left. split; [done|]. exists []. split; [done|]. right.
    split; [done|]. apply not_elem_of_nil.
  - destruct (String.eqb k' k0) eqn:Heq.
    + apply String.eqb_eq in Heq as ->.
      apply elem_of_cons in Hin as [[= -> ->]|Hin].
      * right. left. split; [done|]. exists entries'. split; [done|]. left. by left.
      * destruct (decide (k = k0)) as [->|Hne].
        -- right. right. split; [done|]. split; [by right|].
           intros [Hfresh _]%NoDup_cons. apply Hfresh.
           apply list_elem_of_fmap. by exists (k0, entries).
        -- left. split; [done | by right].
    + apply String.eqb_neq in Heq.
      apply elem_of_cons in Hin as [[= -> ->]|Hin].
      * left. split; [done | by left].
      * destruct (IH Hin) as [[Hne Hold]|[(-> & before & -> & Hfrom)|(-> & Hold & Hdup)]].
        -- left. split; [done | by right].
        -- right. left. split; [done|]. exists before. split; [done|].
           destruct Hfrom as [Hfrom|[-> Hfresh]]; [left; by right|].
           right. split; [done|]. intros [?|?]%elem_of_cons; congruence.
        -- right. right. split; [done|]. split; [by right|].
           intros [_ Hnd]%NoDup_cons. done.
Qed.

Lemma filter_none {A} (p : A → bool) xs :
  (∀ x, x ∈ xs → p x = false) → List.filter p xs = [].
Proof.
  induction xs as [|x xs IH]; intros Hall; simpl; [done|].
  rewrite (Hall x) by left. apply IH. intros y Hy. apply Hall. by right.
Qed.

(** The map after the [forEach]: its keys are distinct, the entry of a key
    holds the items of that key in the order of the input and is not
    empty, and every item has its entry. *)
Lemma groupsBy_spec keyOf conversations :
  NoDup (groupsBy keyOf conversations).*1 ∧
  (∀ k entries, (k, entries) ∈ groupsBy keyOf conversations →
     entries ≠ [] ∧
     entries = List.filter (λ item, String.eqb (keyOf item) k) conversations) ∧
  (∀ item, item ∈ conversations → keyOf item ∈ (groupsBy keyOf conversations).*1) ∧
  concat (groupsBy keyOf conversations).*2 ≡ₚ conversations.
Proof.
  unfold groupsBy.
  induction conversations as [|item seen IH] using rev_ind.
  - csimpl. split; [constructor|]. split; [by intros k entries Hin%elem_of_nil|].
    split; [by intros item Hin%elem_of_nil | done].
  - rewrite foldl_app. csimpl.
    destruct IH as (Hnodup & Hok & Hcover & Hperm).
    split; [by apply groupsPush_NoDup|]. split; [|split].
    + intros k entries Hin. rewrite List.filter_app. simpl.
      apply groupsPush_elem in Hin
        as [[Hne Hold]|[(-> & before & -> & Hfrom)|(_ & _ & Hdup)]]; [| |done].
      * destruct (Hok k entries Hold) as [Hnonempty ->].
        apply not_eq_sym, String.eqb_neq in Hne. rewrite Hne, app_nil_r. done.
      * rewrite String.eqb_refl. split; [by destruct before|]. f_equal.
        destruct Hfrom as [Hfrom|[-> Hfresh]]; [by apply Hok|].
        symmetry. apply filter_none. intros x Hx.
        apply String.eqb_neq. intros Heq. apply Hfresh. rewrite <- Heq. by apply Hcover.
    + intros x Hx. rewrite groupsPush_keys.
      apply elem_of_app in Hx as [Hx|Hx%list_elem_of_singleton].
      * case_bool_decide; [by apply Hcover|]. apply elem_of_app. left. by apply Hcover.
      * subst x. case_bool_decide; [done|]. apply elem_of_app. right. by left.
    + by rewrite groupsPush_concat, Hperm.
Qed.

Lemma concat_perm {A} (xss yss : list (list A)) :
  xss ≡ₚ yss → concat xss ≡ₚ concat yss.
Proof.
  induction 1 as [|xs xss yss _ IH|xs ys xss|xss yss zss _ IH1 _ IH2]; simpl.
  - done.
  - by rewrite IH.
  - rewrite !app_assoc. f_equiv. apply Permutation_app_comm.
  - by rewrite IH1.
Qed.

Lemma concat_fmap_perm {A B} (f : B → list A) (g : B → list A) (xs : list B) :
  (∀ x, f x ≡ₚ g x) → concat (f <$> xs) ≡ₚ concat (g <$> xs).
Proof.
  intros Hfg. induction xs as [|x xs IH]; csimpl; [done|]. by rewrite Hfg, IH.
Qed.

(** The groups before the final sort. *)
Lemma groupConversationsByDate_perm cal newDate now conversations dateField t :
  groupConversationsByDate cal newDate now conversations dateField t ≡ₚ
  (λ '(k, entries),
     mkGroupedConversations
       (getGroupLabel cal now k t) k
       (jsSort (λ a b, jsSub (timeOf newDate dateField b) (timeOf newDate dateField a))
               entries))
    <$> groupsOf cal newDate now conversations dateField.
Proof. unfold groupConversationsByDate. apply jsSort_perm. Qed.

(** What a group of the result holds. *)
Lemma result_groups cal newDate now conversations dateField t g :
  g ∈ groupConversationsByDate cal newDate now conversations dateField t →
  items g ≠ [] ∧
  ∀ item, item ∈ items g ↔
          item ∈ conversations ∧
          getDateGroup cal newDate now (item !! dateField) = key g.
Proof.
  intros Hg. rewrite groupConversationsByDate_perm in Hg.
  destruct (groupsBy_spec (λ item, getDateGroup cal newDate now (item !! dateField))
              conversations) as (_ & Hok & _ & _).
  fold (groupsOf cal newDate now conversations dateField) in Hok.
  apply list_elem_of_fmap in Hg as ([k entries] & -> & Hin). simpl.
  destruct (Hok k entries Hin) as [Hnonempty Hentries].
  split.
  - intros Hnil. apply Hnonempty. apply Permutation_nil_r. by rewrite <- jsSort_perm, Hnil.
  - intros item. rewrite jsSort_elem, Hentries, list_elem_of_In, filter_In,
      <- list_elem_of_In, String.eqb_eq. done.
Qed.

(** X1: every item of the input is in exactly one group, the one of its date:
    the keys of the groups are distinct, a group holds exactly the items
    whose date group is its key and is never empty, and the groups together
    hold the items of the input, each as often as the input does.  This
    holds whatever the date fields contain. *)
Theorem groupConversationsByDate_partition cal newDate now conversations dateField t :
  let result := groupConversationsByDate cal newDate now conversations dateField t in
  NoDup (key <$> result) ∧
  (∀ g, g ∈ result →
     items g ≠ [] ∧
     ∀ item, item ∈ items g ↔
             item ∈ conversations ∧
             getDateGroup cal newDate now (item !! dateField) = key g) ∧
  concat (items <$> result) ≡ₚ conversations.
Proof.
  intros result. subst result.
  pose proof (groupConversationsByDate_perm cal newDate now conversations dateField t)
    as Hperm.
  destruct (groupsBy_spec (λ item, getDateGroup cal newDate now (item !! dateField))
              conversations) as (Hnodup & _ & _ & Hconcat).
  fold (groupsOf cal newDate now conversations dateField) in Hnodup, Hconcat.
  split; [|split].
  - rewrite Hperm, <- list_fmap_compose.
    erewrite list_fmap_ext; [exact Hnodup|]. by intros i [k entries] _.
  - intros g. apply result_groups.
  - etransitivity; [apply concat_perm, fmap_Permutation, Hperm|].
    rewrite <- list_fmap_compose. etransitivity; [|exact Hconcat].
    apply (concat_fmap_perm _ snd). intros [k entries]. simpl. apply jsSort_perm.
Qed.

(** *** Order inside a group *)

(** X2: when every item carries a valid date, the items of each group are in
    descending order of their dates. *)
Theorem groupConversationsByDate_items_sorted
    cal newDate now conversations dateField t :
  (∀ item, item ∈ conversations → is_Some (newDate (item !! dateField))) →
  ∀ g, g ∈ groupConversationsByDate cal newDate now conversations dateField t →
       StronglySorted (notOlder newDate dateField) (items g).
Proof.
  intros Hvalid g Hg.
  destruct (result_groups cal newDate now conversations dateField t g Hg) as [_ Hitems].
  rewrite groupConversationsByDate_perm in Hg.
  apply list_elem_of_fmap in Hg as ([k entries] & -> & Hin). simpl in *.
  apply jsSort_sorted.
  - intros a b c (ta & tb & Ha & Hb & Hab) (tb' & tc & Hb' & Hc & Hbc).
    exists ta, tc. split; [done|]. split; [done|].
    rewrite Hb in Hb'. injection Hb' as <-. lia.
  - intros x y Hx Hy. unfold timeOf, notOlder.
    destruct (Hvalid x) as [tx Htx]; [by apply Hitems, jsSort_elem|].
    destruct (Hvalid y) as [ty Hty]; [by apply Hitems, jsSort_elem|].
    rewrite Htx, Hty. simpl.
    destruct (0 <? ty - tx) eqn:Hcmp.
    + apply Z.ltb_lt in Hcmp. exists ty, tx. repeat split; [done..|lia].
    + apply Z.ltb_ge in Hcmp. exists tx, ty. repeat split; [done..|lia].
Qed.

Lemma groupConversationsByDate_items_sorted_witness :
  items <$> groupConversationsByDate utc dateOfTimestamp sampleNow
              [at_ "a" 2026 11 1 2; at_ "b" 2026 10 31 5; at_ "c" 2026 11 1 9]
              "updatedAt" None
  = [[at_ "c" 2026 11 1 9; at_ "a" 2026 11 1 2]; [at_ "b" 2026 10 31 5]] ∧
  ∀ g, g ∈ groupConversationsByDate utc dateOfTimestamp sampleNow
             [at_ "a" 2026 11 1 2; at_ "b" 2026 10 31 5; at_ "c" 2026 11 1 9]
             "updatedAt" None →
       StronglySorted (notOlder dateOfTimestamp "updatedAt") (items g).
Proof.
  split; [by vm_compute|].
  apply groupConversationsByDate_items_sorted.
  intros item Hin. apply list_elem_of_In in Hin. simpl in Hin.
  destruct Hin as [<-|[<-|[<-|[]]]]; eexists; vm_compute; reflexivity.
Defined.

(** *** Items without a valid date *)

Lemma getDateGroup_invalid cal newDate now date :
  newDate date = None → getDateGroup cal newDate now date = "NaN-NaN".
Proof.
  intros Hnone. unfold getDateGroup, dateOfFields. rewrite Hnone. simpl.
  by destruct (makeDate cal _ _ _).
Qed.

Lemma groupsBy_const keyOf k conversations :
  conversations ≠ [] → (∀ item, item ∈ conversations → keyOf item = k) →
  groupsBy keyOf conversations = [(k, conversations)].
Proof.
  unfold groupsBy.
  induction conversations as [|item seen IH] using rev_ind; [done|].
  intros _ Hkey. rewrite foldl_app. simpl.
  rewrite (Hkey item) by (apply elem_of_app; right; by left).
  destruct seen as [|x seen]; [done|].
  rewrite IH; [|done|intros y Hy; apply Hkey, elem_of_app; by left].
  simpl. by rewrite String.eqb_refl.
Qed.

(** X5: when no item carries a valid date, all items end up in one group with
    the key [NaN-NaN], in the order of the input. *)
Theorem groupConversationsByDate_invalid_dates
    cal newDate now conversations dateField t :
  conversations ≠ [] →
  (∀ item, item ∈ conversations → newDate (item !! dateField) = None) →
  groupConversationsByDate cal newDate now conversations dateField t =
    [mkGroupedConversations (getGroupLabel cal now "NaN-NaN" t) "NaN-NaN"
                            conversations] ∧
  getGroupLabel cal now "NaN-NaN" None = Some "NaN年undefined" ∧
  getGroupWeight "NaN-NaN" = None.
Proof.
  intros Hnonempty Hinvalid. split; [|by vm_compute].
  unfold groupConversationsByDate, groupsOf.
  rewrite (groupsBy_const _ "NaN-NaN") by
    (done || intros item Hin; by apply getDateGroup_invalid, Hinvalid).
  simpl. f_equal. f_equal. apply jsSort_id.
  intros x y Hx Hy. unfold timeOf.
  by rewrite (Hinvalid x Hx), (Hinvalid y Hy).
Qed.

Lemma groupConversationsByDate_invalid_dates_witness :
  groupConversationsByDate utc dateOfTimestamp sampleNow
    [undated "a"; undated "b"] "updatedAt" None
  = [mkGroupedConversations (Some "NaN年undefined") "NaN-NaN"
                            [undated "a"; undated "b"]].
Proof.
  destruct (groupConversationsByDate_invalid_dates utc dateOfTimestamp sampleNow
              [undated "a"; undated "b"] "updatedAt" None) as (Hres & Hlabel & _).
  - discriminate.
  - intros item Hin. apply list_elem_of_In in Hin. simpl in Hin.
    destruct Hin as [<-|[<-|[]]]; reflexivity.
  - by rewrite Hres, Hlabel.
Defined.

(** An item without a date ahead of an item of today: the weight of its
    group is [NaN], the comparator answers [NaN] for the pair, and the
    groups stay in the order of their creation. *)
Example groupConversationsByDate_undated_first :
  key <$> groupConversationsByDate utc dateOfTimestamp sampleNow
            [undated "a"; at_ "b" 2026 11 1 9] "updatedAt" None
  = ["NaN-NaN"; "today"].
Proof. by vm_compute. Qed.

(** *** Numbers written and read back *)

Lemma allDigits_string_of_uint u : allDigits (NilEmpty.string_of_uint u) = true.
Proof. induction u; simpl; done. Qed.

Local Ltac eval_char :=
  repeat match goal with
  | |- context [Z.of_nat (nat_of_ascii ?c)] =>
      let v := eval vm_compute in (Z.of_nat (nat_of_ascii c)) in
      change (Z.of_nat (nat_of_ascii c)) with v
  end.

Lemma digitsValue_uint_acc u acc :
  digitsValue (Z.pos acc) (NilEmpty.string_of_uint u) = Z.pos (Pos.of_uint_acc u acc).
Proof.
  revert acc. induction u; intros acc; [done|..];
    cbn [NilEmpty.string_of_uint digitsValue Pos.of_uint_acc];
    rewrite <- IHu; f_equal; eval_char; lia.
Qed.

Lemma digitsValue_uint u :
  digitsValue 0 (NilEmpty.string_of_uint u) = Z.of_N (Pos.of_uint u).
Proof.
  induction u; [done|..];
    cbn [NilEmpty.string_of_uint digitsValue Pos.of_uint]; eval_char;
    [exact IHu|..]; cbn [Z.of_N]; rewrite <- digitsValue_uint_acc; f_equal.
Qed.

Lemma Z_toString_pos p :
  Z_toString (Z.pos p) = NilEmpty.string_of_uint (Pos.to_uint p).
Proof.
  unfold Z_toString. simpl.
  pose proof (Unsigned.to_uint_nonnil p) as Hnonnil.
  by destruct (Pos.to_uint p).
Qed.

Lemma digitsValue_Z_toString p : digitsValue 0 (Z_toString (Z.pos p)) = Z.pos p.
Proof. by rewrite Z_toString_pos, digitsValue_uint, Unsigned.of_to. Qed.

Lemma parseDigits_digits s acc :
  allDigits s = true → parseDigits 10 s (Some acc) = Some (digitsValue acc s).
Proof.
  revert acc. induction s as [|c s IH]; intros acc Hs; [done|].
  simpl in Hs. apply andb_true_iff in Hs as [Hc Hs].
  cbn [parseDigits digitsValue]. unfold digitValue, isDigit in *.
  apply andb_true_iff in Hc as [Hlo Hhi].
  apply Nat.leb_le in Hlo, Hhi.
  assert ((48 <=? Z.of_nat (nat_of_ascii c)) && (Z.of_nat (nat_of_ascii c) <=? 57) = true)
    as -> by (apply andb_true_iff; split; apply Z.leb_le; lia).
  assert ((Z.of_nat (nat_of_ascii c) - 48 <? 10) = true) as -> by (apply Z.ltb_lt; lia).
  cbn [default]. by apply IH.
Qed.

Lemma parseDigits_nonempty c rest acc :
  isDigit c = true → allDigits rest = true →
  parseDigits 10 (String c rest) acc
    = Some (digitsValue (default 0 acc) (String c rest)).
Proof.
  intros Hc Hrest.
  cbn [parseDigits digitsValue]. unfold digitValue, isDigit in *.
  apply andb_true_iff in Hc as [Hlo Hhi].
  apply Nat.leb_le in Hlo, Hhi.
  assert ((48 <=? Z.of_nat (nat_of_ascii c)) && (Z.of_nat (nat_of_ascii c) <=? 57) = true)
    as -> by (apply andb_true_iff; split; apply Z.leb_le; lia).
  assert ((Z.of_nat (nat_of_ascii c) - 48 <? 10) = true) as -> by (apply Z.ltb_lt; lia).
  by apply parseDigits_digits.
Qed.

Lemma isDigit_cases c :
  isDigit c = true →
  c ∈ ["0"; "1"; "2"; "3"; "4"; "5"; "6"; "7"; "8"; "9"]%char.
Proof.
  intros Hc.
  destruct c as [[] [] [] [] [] [] [] []]; try discriminate Hc;
    apply list_elem_of_In; simpl; tauto.
Qed.

Local Ltac eval_chars :=
  repeat match goal with
  | |- context [isWhitespace ?c] =>
      let v := eval vm_compute in (isWhitespace c) in
      change (isWhitespace c) with v
  | |- context [digitValue ?c] =>
      let v := eval vm_compute in (digitValue c) in
      change (digitValue c) with v
  end.

Lemma fmap_mul_1 (n : JsNum) : (λ n, 1 * n) <$> n = n.
Proof. destruct n as [n|]; simpl; [|done]. by destruct n. Qed.

Lemma parseInt_digits c rest :
  isDigit c = true → allDigits rest = true →
  parseInt (String c rest) 0 = Some (digitsValue 0 (String c rest)).
Proof.
  intros Hc Hrest.
  assert (parseInt (String c rest) 0 = parseDigits 10 (String c rest) None) as ->.
  { apply isDigit_cases in Hc. apply list_elem_of_In in Hc. simpl in Hc.
    destruct Hc as [<-|[<-|[<-|[<-|[<-|[<-|[<-|[<-|[<-|[<-|[]]]]]]]]]]];
      try (unfold parseInt; cbn [trimStart]; eval_chars; cbv iota beta zeta;
           cbn [stripHexPrefix negb andb orb Z.eqb]; apply fmap_mul_1).
    destruct rest as [|c2 rest2].
    - reflexivity.
    - simpl in Hrest. apply andb_true_iff in Hrest as [Hc2 _].
      apply isDigit_cases in Hc2. apply list_elem_of_In in Hc2. simpl in Hc2.
      destruct Hc2 as [<-|[<-|[<-|[<-|[<-|[<-|[<-|[<-|[<-|[<-|[]]]]]]]]]]];
        unfold parseInt; cbn [trimStart]; eval_chars; cbv iota beta zeta;
        cbn [stripHexPrefix negb andb orb Z.eqb]; apply fmap_mul_1. }
  by apply parseDigits_nonempty.
Qed.

Lemma Z_toString_digits n :
  0 ≤ n → ∃ c rest, Z_toString n = String c rest ∧ isDigit c = true ∧
                    allDigits rest = true ∧ digitsValue 0 (String c rest) = n.
Proof.
  intros Hn. destruct n as [|p|p]; [by exists "0"%char, "" | | lia].
  pose proof (digitsValue_Z_toString p) as Hvalue.
  pose proof (allDigits_string_of_uint (Pos.to_uint p)) as Hall.
  rewrite <- Z_toString_pos in Hall.
  pose proof (Unsigned.to_uint_nonnil p) as Hnonnil.
  destruct (Z_toString (Z.pos p)) as [|c rest] eqn:Hs.
  - rewrite Z_toString_pos in Hs. by destruct (Pos.to_uint p).
  - simpl in Hall. apply andb_true_iff in Hall as [Hc Hrest]. by exists c, rest.
Qed.

(** Reading back a number that was written in decimal. *)
Lemma parseInt_Z_toString n : 0 ≤ n → parseInt (Z_toString n) 0 = Some n.
Proof.
  intros Hn. destruct (Z_toString_digits n Hn) as (c & rest & -> & Hc & Hrest & <-).
  by apply parseInt_digits.
Qed.

Lemma allDigits_no_dash s : allDigits s = true → containsChar "-" s = false.
Proof.
  induction s as [|c s IH]; intros Hs; [done|].
  simpl in Hs. apply andb_true_iff in Hs as [Hc Hs]. simpl. rewrite (IH Hs).
  destruct (Ascii.eqb_spec c "-") as [->|]; [discriminate Hc | done].
Qed.

Lemma splitOn_single sep s : containsChar sep s = false → splitOn sep s = [s].
Proof.
  induction s as [|c s IH]; intros Hs; [done|].
  simpl in *. apply orb_false_iff in Hs as [Hc Hs]. by rewrite Hc, (IH Hs).
Qed.

Lemma splitOn_app sep a b :
  containsChar sep a = false →
  splitOn sep (a +:+ String sep b) = a :: splitOn sep b.
Proof.
  induction a as [|c a IH]; intros Ha.
  - change ("" +:+ String sep b) with (String sep b). simpl.
    by rewrite Ascii.eqb_refl.
  - simpl in Ha. apply orb_false_iff in Ha as [Hc Ha].
    change (String c a +:+ String sep b) with (String c (a +:+ String sep b)).
    simpl. by rewrite Hc, (IH Ha).
Qed.

Lemma containsChar_app sep a b :
  containsChar sep (a +:+ String sep b) = true.
Proof.
  induction a as [|c a IH].
  - change ("" +:+ String sep b) with (String sep b). simpl.
    by rewrite Ascii.eqb_refl.
  - change (String c a +:+ String sep b) with (String c (a +:+ String sep b)).
    simpl. by rewrite IH, orb_true_r.
Qed.


Lemma eqb_digit_start c s c' s' :
  isDigit c = true → isDigit c' = false →
  String.eqb (String c s) (String c' s') = false.
Proof.
  intros Hc Hc'. simpl.
  destruct (Ascii.eqb_spec c c') as [->|]; [congruence | done].
Qed.

(** The key of a month and its weight. *)
Lemma getGroupWeight_year_month y m :
  0 ≤ y → 0 ≤ m →
  getGroupWeight (Z_toString y +:+ "-" +:+ Z_toString m) = Some (1000 + y * 100 + m) ∧
  groupRank (Z_toString y +:+ "-" +:+ Z_toString m) = 4%nat.
Proof.
  intros Hy Hm.
  destruct (Z_toString_digits y Hy) as (c & rest & Hsy & Hc & Hrest & Hvy).
  destruct (Z_toString_digits m Hm) as (c' & rest' & Hsm & Hc' & Hrest' & Hvm).
  assert (allDigits (Z_toString y) = true) as Hally
    by (rewrite Hsy; simpl; by rewrite Hc, Hrest).
  assert (allDigits (Z_toString m) = true) as Hallm
    by (rewrite Hsm; simpl; by rewrite Hc', Hrest').
  change ("-" +:+ Z_toString m) with (String "-" (Z_toString m)).
  set (k := Z_toString y +:+ String "-" (Z_toString m)).
  assert (∀ c0 s0, isDigit c0 = false → String.eqb k (String c0 s0) = false) as Hnamed.
  { intros c0 s0 Hc0. unfold k. rewrite Hsy.
    change (String c rest +:+ String "-" (Z_toString m))
      with (String c (rest +:+ String "-" (Z_toString m))).
    by apply eqb_digit_start. }
  assert (containsChar "-" k = true) as Hdash by apply containsChar_app.
  assert (splitOn "-" k = [Z_toString y; Z_toString m]) as Hsplit.
  { unfold k. rewrite splitOn_app, splitOn_single by (by apply allDigits_no_dash). done. }
  unfold getGroupWeight, groupRank.
  rewrite !Hnamed by done. rewrite Hdash, Hsplit.
  cbn [lookup list_lookup parseIntOf].
  rewrite !parseInt_Z_toString by done. done.
Qed.






Lemma getDateGroup_cases cal newDate now date t :
  newDate date = Some t →
  getDateGroup cal newDate now date ∈ ["today"; "yesterday"; "week"; "month"] ∨
  getDateGroup cal newDate now date = monthKey (getFullYear cal t) (getMonth cal t + 1).
Proof.
  intros Ht. unfold getDateGroup. rewrite Ht. cbn [fmap option_fmap option_map].
  repeat match goal with
  | |- context [if ?b then _ else _] => destruct b
  end; try (left; apply list_elem_of_In; simpl; tauto).
  right. reflexivity.
Qed.

(** The weight and the rank of the keys that valid dates of the years from
    0 on give. *)
Lemma key_weight_rank cal newDate now dateField item :
  datedInCommonEra cal newDate dateField item →
  ∃ w, getGroupWeight (getDateGroup cal newDate now (item !! dateField)) = Some w ∧
       (w = 1 + Z.of_nat (groupRank (getDateGroup cal newDate now (item !! dateField)))
        ∧ w ≤ 4
        ∨ 1000 ≤ w ∧
          groupRank (getDateGroup cal newDate now (item !! dateField)) = 4%nat).
Proof.
  intros (t & Ht & Hy & Hm).
  destruct (getDateGroup_cases cal newDate now (item !! dateField) t Ht) as [Hnamed| ->].
  - apply list_elem_of_In in Hnamed. simpl in Hnamed.
    destruct Hnamed as [<-|[<-|[<-|[<-|[]]]]]; eexists; (split; [reflexivity|]);
      left; by vm_compute.
  - unfold monthKey.
    destruct (getGroupWeight_year_month (getFullYear cal t) (getMonth cal t + 1))
      as [-> ->]; [lia..|].
    eexists. split; [reflexivity|]. right. split; [lia | done].
Qed.

(** The weight and the rank of the key of every group of the result. *)
Lemma result_key_weights cal newDate now conversations dateField t :
  (∀ item, item ∈ conversations → datedInCommonEra cal newDate dateField item) →
  ∀ g, g ∈ (λ '(k, entries),
              mkGroupedConversations
                (getGroupLabel cal now k t) k
                (jsSort (λ a b, jsSub (timeOf newDate dateField b)
                                      (timeOf newDate dateField a)) entries))
             <$> groupsOf cal newDate now conversations dateField →
       ∃ w, getGroupWeight (key g) = Some w ∧
            (w = 1 + Z.of_nat (groupRank (key g)) ∧ w ≤ 4
             ∨ 1000 ≤ w ∧ groupRank (key g) = 4%nat).
Proof.
  intros Hvalid g ([k entries] & -> & Hin)%list_elem_of_fmap. simpl.
  destruct (groupsBy_spec (λ item, getDateGroup cal newDate now (item !! dateField))
              conversations) as (_ & Hok & _ & _).
  fold (groupsOf cal newDate now conversations dateField) in Hok.
  destruct (Hok k entries Hin) as [Hnonempty Hentries].
  destruct entries as [|item entries]; [done|].
  assert (item ∈ List.filter
                   (λ item, String.eqb (getDateGroup cal newDate now (item !! dateField)) k)
                   conversations) as Hitem by (rewrite <- Hentries; left).
  apply list_elem_of_In, filter_In in Hitem as [Hitem Hk].
  apply String.eqb_eq in Hk. rewrite <- Hk.
  apply key_weight_rank, Hvalid. by apply list_elem_of_In.
Qed.

Lemma weightOrdered_trans a b c :
  weightOrdered a b → weightOrdered b c → weightOrdered a c.
Proof.
  intros (wa & wb & Ha & Hb & Hab) (wb' & wc & Hb' & Hc & Hbc).
  exists wa, wc. split; [done|]. split; [done|].
  rewrite Hb in Hb'. injection Hb' as <-. lia.
Qed.

Lemma result_sorted_by_weight cal newDate now conversations dateField t :
  (∀ item, item ∈ conversations → datedInCommonEra cal newDate dateField item) →
  StronglySorted weightOrdered
    (groupConversationsByDate cal newDate now conversations dateField t).
Proof.
  intros Hvalid.
  pose proof (result_key_weights cal newDate now conversations dateField t Hvalid)
    as Hkeys.
  apply jsSort_sorted; [exact weightOrdered_trans|].
  intros x y Hx Hy.
  destruct (Hkeys x Hx) as (wx & Hwx & _), (Hkeys y Hy) as (wy & Hwy & _).
  rewrite Hwx, Hwy. simpl. unfold weightOrdered.
  destruct (0 <? wx - wy) eqn:Hcmp.
  - apply Z.ltb_lt in Hcmp. exists wy, wx. repeat split; [done..|lia].
  - apply Z.ltb_ge in Hcmp. exists wx, wy. repeat split; [done..|lia].
Qed.

(** X3: when every item carries a valid date of a year from 0 on, the groups
    come in the order of their weights: the named groups first, in the
    order today, yesterday, week, month, then the groups of months. *)
Theorem groupConversationsByDate_group_order
    cal newDate now conversations dateField t :
  (∀ item, item ∈ conversations → datedInCommonEra cal newDate dateField item) →
  let result := groupConversationsByDate cal newDate now conversations dateField t in
  StronglySorted weightOrdered result ∧
  StronglySorted (λ a b, (groupRank (key a) ≤ groupRank (key b))%nat) result.
Proof.
  intros Hvalid result.
  pose proof (result_key_weights cal newDate now conversations dateField t Hvalid)
    as Hkeys.
  split; [by apply result_sorted_by_weight|].
  apply jsSort_sorted.
  - intros a b c. lia.
  - intros x y Hx Hy.
    destruct (Hkeys x Hx) as (wx & Hwx & Hrx), (Hkeys y Hy) as (wy & Hwy & Hry).
    rewrite Hwx, Hwy. simpl.
    destruct (0 <? wx - wy) eqn:Hcmp.
    + apply Z.ltb_lt in Hcmp. lia.
    + apply Z.ltb_ge in Hcmp. lia.
Qed.

Lemma sampleConversations_dated item :
  item ∈ sampleConversations → datedInCommonEra utc dateOfTimestamp "updatedAt" item.
Proof.
  intros Hin. apply list_elem_of_In in Hin. simpl in Hin.
  unfold datedInCommonEra.
  repeat (destruct Hin as [<-|Hin]; [eexists; split; [vm_compute; reflexivity|];
                                     vm_compute; intuition discriminate|]).
  destruct Hin.
Qed.

Lemma groupConversationsByDate_group_order_witness :
  key <$> groupConversationsByDate utc dateOfTimestamp sampleNow
            sampleConversations "updatedAt" None
  = ["today"; "yesterday"; "week"; "month"; "2025-2"; "2026-9"] ∧
  StronglySorted weightOrdered
    (groupConversationsByDate utc dateOfTimestamp sampleNow
       sampleConversations "updatedAt" None).
Proof.
  split; [by vm_compute|].
  apply (groupConversationsByDate_group_order utc dateOfTimestamp sampleNow
           sampleConversations "updatedAt" None).
  exact sampleConversations_dated.
Defined.

Lemma StronglySorted_weaken {A} (R1 R2 : relation A) (xs : list A) :
  (∀ x y, x ∈ xs → y ∈ xs → R1 x y → R2 x y) →
  StronglySorted R1 xs → StronglySorted R2 xs.
Proof.
  intros Himpl Hsorted. induction Hsorted as [|x xs Hsorted IH Hx]; constructor.
  - apply IH. intros a b Ha Hb. apply Himpl; by right.
  - apply Forall_forall. intros y Hy. apply Himpl; [by left | by right |].
    by apply (proj1 (Forall_forall _ _) Hx).
Qed.

(** X4: the groups of months come in ascending order, the older month first. *)
Theorem groupConversationsByDate_months_ascending
    cal newDate now conversations dateField t :
  (∀ item, item ∈ conversations → datedInCommonEra cal newDate dateField item) →
  StronglySorted
    (λ a b, ∀ y1 m1 y2 m2,
       0 ≤ y1 → 1 ≤ m1 ≤ 12 → 0 ≤ y2 → 1 ≤ m2 ≤ 12 →
       key a = monthKey y1 m1 → key b = monthKey y2 m2 →
       y1 < y2 ∨ y1 = y2 ∧ m1 ≤ m2)
    (groupConversationsByDate cal newDate now conversations dateField t).
Proof.
  intros Hvalid.
  eapply StronglySorted_weaken; [|by apply result_sorted_by_weight].
  intros a b _ _ (wa & wb & Ha & Hb & Hab) y1 m1 y2 m2 Hy1 Hm1 Hy2 Hm2 Hka Hkb.
  rewrite Hka in Ha. rewrite Hkb in Hb. unfold monthKey in *.
  destruct (getGroupWeight_year_month y1 m1) as [Hw1 _]; [lia..|].
  destruct (getGroupWeight_year_month y2 m2) as [Hw2 _]; [lia..|].
  rewrite Hw1 in Ha. rewrite Hw2 in Hb.
  injection Ha as <-. injection Hb as <-. lia.
Qed.

Lemma groupConversationsByDate_months_ascending_witness :
  StronglySorted
    (λ a b, ∀ y1 m1 y2 m2,
       0 ≤ y1 → 1 ≤ m1 ≤ 12 → 0 ≤ y2 → 1 ≤ m2 ≤ 12 →
       key a = monthKey y1 m1 → key b = monthKey y2 m2 →
       y1 < y2 ∨ y1 = y2 ∧ m1 ≤ m2)
    (groupConversationsByDate utc dateOfTimestamp sampleNow
       sampleConversations "updatedAt" None).
Proof.
  apply (groupConversationsByDate_months_ascending utc dateOfTimestamp sampleNow
           sampleConversations "updatedAt" None).
  exact sampleConversations_dated.
Defined.

(** X6: a date after today (its local midnight is later than today's) is put
    in the group of the last seven days. *)
Theorem getDateGroup_future cal newDate now date t today target :
  newDate date = Some t →
  makeDate cal (getFullYear cal now) (getMonth cal now) (getDate cal now) = Some today →
  makeDate cal (getFullYear cal t) (getMonth cal t) (getDate cal t) = Some target →
  today < target →
  getDateGroup cal newDate now date = "week".
Proof.
  intros Ht Htoday Htarget Hlater.
  unfold getDateGroup, dateOfFields. rewrite Ht. cbn [fmap option_fmap option_map].
  rewrite Htoday, Htarget. cbn [jsSub jsFloorDiv fmap option_fmap option_map jsEq jsLe].
  assert ((today - target) / (1000 * 60 * 60 * 24) < 0) as Hneg
    by (apply Z.div_lt_upper_bound; lia).
  destruct (Z.eqb_spec ((today - target) / (1000 * 60 * 60 * 24)) 0); [lia|].
  destruct (Z.eqb_spec ((today - target) / (1000 * 60 * 60 * 24)) 1); [lia|].
  destruct (Z.leb_spec ((today - target) / (1000 * 60 * 60 * 24)) 7); [done | lia].
Qed.

Lemma getDateGroup_future_witness :
  getDateGroup utc dateOfTimestamp sampleNow (at_ "next year" 2027 5 1 0 !! "updatedAt")
  = "week".
Proof.
  apply (getDateGroup_future utc dateOfTimestamp sampleNow _
           (daysFromCivil 2027 5 1 * msPerDay + 0 * 3600000)
           (daysFromCivil 2026 11 1 * msPerDay)
           (daysFromCivil 2027 5 1 * msPerDay));
    vm_compute; reflexivity.
Defined.

(** *** Labels *)

Lemma monthKey_parts y m :
  0 ≤ y → 0 ≤ m →
  (∀ c0 s0, isDigit c0 = false → String.eqb (monthKey y m) (String c0 s0) = false) ∧
  containsChar "-" (monthKey y m) = true ∧
  splitOn "-" (monthKey y m) = [Z_toString y; Z_toString m].
Proof.
  intros Hy Hm. unfold monthKey.
  destruct (Z_toString_digits y Hy) as (c & rest & Hsy & Hc & Hrest & Hvy).
  destruct (Z_toString_digits m Hm) as (c' & rest' & Hsm & Hc' & Hrest' & Hvm).
  assert (allDigits (Z_toString y) = true) as Hally
    by (rewrite Hsy; simpl; by rewrite Hc, Hrest).
  assert (allDigits (Z_toString m) = true) as Hallm
    by (rewrite Hsm; simpl; by rewrite Hc', Hrest').
  change ("-" +:+ Z_toString m) with (String "-" (Z_toString m)).
  split; [|split].
  - intros c0 s0 Hc0. rewrite Hsy.
    change (String c rest +:+ String "-" (Z_toString m))
      with (String c (rest +:+ String "-" (Z_toString m))).
    by apply eqb_digit_start.
  - apply containsChar_app.
  - rewrite splitOn_app, splitOn_single by (by apply allDigits_no_dash). done.
Qed.

(** X8: the label of the group of a month: the name of the month, preceded by
    the year unless it is the current one. *)
Theorem getGroupLabel_month cal now y m t :
  0 ≤ y → 1 ≤ m ≤ 12 →
  let monthName :=
    match t with
    | None => Z_toString m +:+ "月"
    | Some translate =>
        translate ("common.dateGroup.months."
                   +:+ default "" (monthKeys !! Z.to_nat (m - 1)))
    end in
  getGroupLabel cal now (monthKey y m) t =
    Some (if y =? getFullYear cal now then monthName
          else Z_toString y +:+ "年" +:+ monthName).
Proof.
  intros Hy Hm monthName. subst monthName.
  destruct (monthKey_parts y m) as (Hnamed & Hdash & Hsplit); [lia..|].
  assert (m = 1 ∨ m = 2 ∨ m = 3 ∨ m = 4 ∨ m = 5 ∨ m = 6 ∨ m = 7 ∨ m = 8 ∨
          m = 9 ∨ m = 10 ∨ m = 11 ∨ m = 12) as Hcases by lia.
  unfold getGroupLabel. destruct t as [translate|];
    rewrite !Hnamed by done; rewrite Hdash, Hsplit;
    cbn [lookup list_lookup parseIntOf orUndefined default];
    rewrite !parseInt_Z_toString by lia;
    cbn [jsEq jsSub]; destruct (y =? getFullYear cal now);
    destruct Hcases as [->|[->|[->|[->|[->|[->|[->|[->|[->|[->|[->| ->]]]]]]]]]]];
    reflexivity.
Qed.

Lemma getGroupLabel_month_witness :
  getGroupLabel utc sampleNow "2026-9" None = Some "9月" ∧
  getGroupLabel utc sampleNow "2025-12" None = Some "2025年12月".
Proof.
  split.
  - apply (getGroupLabel_month utc sampleNow 2026 9 None); lia.
  - apply (getGroupLabel_month utc sampleNow 2025 12 None); lia.
Defined.

(** *** Relative times *)

(** X9: [formatRelativeTime] of a valid date shows one of: "just now" for less
    than a minute (a date in the future included), the whole minutes from
    1 to 59, the whole hours from 1 to 23, the whole days from 1 to 6, or
    the date itself from seven days on.  An invalid date is handed to the
    date formatter as it is. *)
Theorem formatRelativeTime_ranges newDate now toLocale date t :
  let phrase zh k :=
    match t with None => zh | Some translate => translate k end in
  let text := formatRelativeTime newDate now toLocale date t in
  match newDate date with
  | None => text = toLocale None
  | Some target =>
      let diff := now - target in
      diff < 60000 ∧ text = phrase "刚刚" "console-common.time.justNow" ∨
      (∃ n, 1 ≤ n ≤ 59 ∧ n = diff / 60000 ∧
            text = Z_toString n +:+ phrase "分钟前" "console-common.time.minutesAgo") ∨
      (∃ n, 1 ≤ n ≤ 23 ∧ n = diff / 3600000 ∧
            text = Z_toString n +:+ phrase "小时前" "console-common.time.hoursAgo") ∨
      (∃ n, 1 ≤ n ≤ 6 ∧ n = diff / 86400000 ∧
            text = Z_toString n +:+ phrase "天前" "console-common.time.daysAgo") ∨
      604800000 ≤ diff ∧ text = toLocale (Some target)
  end.
Proof.
  intros phrase text. subst phrase text. unfold formatRelativeTime.
  destruct (newDate date) as [target|]; [|by destruct t].
  cbn [jsSub jsFloorDiv fmap option_fmap option_map jsLt JsNum_toString].
  change (1000 * 60) with 60000. change (60000 * 60) with 3600000.
  change (3600000 * 24) with 86400000.
  set (diff := now - target).
  pose proof (Z.div_mod diff 60000 ltac:(lia)) as Hmin.
  pose proof (Z.mod_pos_bound diff 60000 ltac:(lia)) as Hminr.
  pose proof (Z.div_mod diff 3600000 ltac:(lia)) as Hhour.
  pose proof (Z.mod_pos_bound diff 3600000 ltac:(lia)) as Hhourr.
  pose proof (Z.div_mod diff 86400000 ltac:(lia)) as Hday.
  pose proof (Z.mod_pos_bound diff 86400000 ltac:(lia)) as Hdayr.
  destruct t as [translate|];
    (destruct (Z.ltb_spec (diff / 60000) 1); [left; split; [lia | done]|]);
    (destruct (Z.ltb_spec (diff / 60000) 60);
       [right; left; exists (diff / 60000); split; [lia | done]|]);
    (destruct (Z.ltb_spec (diff / 3600000) 24);
       [right; right; left; exists (diff / 3600000); split; [lia | done]|]);
    (destruct (Z.ltb_spec (diff / 86400000) 7);
       [right; right; right; left; exists (diff / 86400000); split; [lia | done]|]);
    right; right; right; right; split; [lia | done | lia | done].
Qed.

Example formatRelativeTime_samples :
  formatRelativeTime dateOfTimestamp sampleNow sampleLocale (Some (VNum (sampleNow - 59999))) None
    = "刚刚" ∧
  formatRelativeTime dateOfTimestamp sampleNow sampleLocale (Some (VNum (sampleNow + 5000000))) None
    = "刚刚" ∧
  formatRelativeTime dateOfTimestamp sampleNow sampleLocale (Some (VNum (sampleNow - 3599999))) None
    = "59分钟前" ∧
  formatRelativeTime dateOfTimestamp sampleNow sampleLocale (Some (VNum (sampleNow - 3600000))) None
    = "1小时前" ∧
  formatRelativeTime dateOfTimestamp sampleNow sampleLocale (Some (VNum (sampleNow - 6 * 86400000 - 5))) None
    = "6天前" ∧
  formatRelativeTime dateOfTimestamp sampleNow sampleLocale (Some (VNum (sampleNow - 7 * 86400000))) None
    = "10/25" ∧
  formatRelativeTime dateOfTimestamp sampleNow sampleLocale None None = "Invalid Date".
Proof. by vm_compute. Qed.

End DateUtilProps.

(** ** Page layouts and micropages *)

Module PageControllerProps.
Import PageController PageSamples.

Lemma findOneBy_app_l {A} (p : A → bool) xs ys x :
  findOneBy p xs = Some x → findOneBy p (xs ++ ys) = Some x.
Proof.
  unfold findOneBy. induction xs as [|a xs IH]; simpl; [done|].
  destruct (p a); [done | exact IH].
Qed.

Lemma findOneBy_app_r {A} (p : A → bool) xs ys :
  findOneBy p xs = None → findOneBy p (xs ++ ys) = findOneBy p ys.
Proof.
  unfold findOneBy. induction xs as [|a xs IH]; simpl; [done|].
  destruct (p a); [done | exact IH].
Qed.

Lemma findOneBy_map {A} (p : A → bool) (f : A → A) rows :
  (∀ x, p (f x) = p x) → findOneBy p (f <$> rows) = f <$> findOneBy p rows.
Proof.
  intros Hp. unfold findOneBy.
  induction rows as [|r rows IH]; simpl; [done|].
  rewrite Hp. by destruct (p r).
Qed.

Lemma applyData_id target newData page : id (applyData target newData page) = id page.
Proof. unfold applyData. by destruct (String.eqb (id page) target). Qed.

Lemma applyData_name target newData page :
  name (applyData target newData page) = name page.
Proof. unfold applyData. by destruct (String.eqb (id page) target). Qed.

(** What [saveLayout] does to the table. *)
Lemma saveLayout_found generatedId type newData w existing :
  findOneBy (hasName type) (pages w) = Some existing →
  saveLayout generatedId type newData w =
    (Some (mkLayoutResult (Some (id existing)) (Some newData)),
     mkWorld (applyData (id existing) newData <$> pages w)
             (micropages w) (created w)).
Proof.
  intros Hfind. unfold saveLayout, service_updateById. rewrite Hfind.
  assert (∃ updated,
            findOneBy (λ page, String.eqb (id page) (id existing))
                      (applyData (id existing) newData <$> pages w) = Some updated ∧
            id updated = id existing ∧ data updated = Some newData)
    as (updated & -> & <- & Hdata).
  { rewrite findOneBy_map by (intros page; by rewrite applyData_id).
    apply findOneBy_Some in Hfind as [Hin _].
    destruct (findOneBy (λ page, String.eqb (id page) (id existing)) (pages w))
      as [first|] eqn:Hfirst.
    - apply findOneBy_Some in Hfirst as [_ Hid]. eexists. split; [reflexivity|].
      unfold applyData. rewrite Hid. simpl. by apply String.eqb_eq in Hid.
    - rewrite findOneBy_None in Hfirst. specialize (Hfirst existing Hin).
      simpl in Hfirst. by rewrite String.eqb_refl in Hfirst. }
  by rewrite Hdata.
Qed.

Lemma saveLayout_missing generatedId type newData w :
  findOneBy (hasName type) (pages w) = None →
  saveLayout generatedId type newData w =
    (Some (mkLayoutResult (Some (generatedId (created w))) (Some newData)),
     mkWorld (pages w ++ [mkPage (generatedId (created w)) type (Some newData)])
             (micropages w) (S (created w))).
Proof. intros Hfind. unfold saveLayout, service_create. by rewrite Hfind. Qed.

(** X10: saving the layout of a type and reading it back: the console returns
    the layout that was saved, under the id the save reported, whatever the
    table held before. *)
Theorem saveLayout_getLayoutByType generatedId type newData w :
  ∃ key w',
    saveLayout generatedId type newData w
      = (Some (mkLayoutResult (Some key) (Some newData)), w') ∧
    getLayoutByType type w' = mkLayoutResult (Some key) (Some newData) ∧
    web_getLayoutByType type w' = StoredLayout (mkPage key type (Some newData)).
Proof.
  destruct (findOneBy (hasName type) (pages w)) as [existing|] eqn:Hfind.
  - rewrite (saveLayout_found generatedId type newData w existing Hfind).
    eexists _, _. split; [reflexivity|].
    unfold getLayoutByType, web_getLayoutByType. simpl.
    rewrite findOneBy_map by (intros page; unfold hasName; by rewrite applyData_name).
    rewrite Hfind. simpl. unfold applyData. rewrite String.eqb_refl. simpl.
    apply findOneBy_Some in Hfind as [_ Hname]. apply String.eqb_eq in Hname.
    by rewrite Hname.
  - rewrite (saveLayout_missing generatedId type newData w Hfind).
    eexists _, _. split; [reflexivity|].
    unfold getLayoutByType, web_getLayoutByType. simpl.
    rewrite findOneBy_app_r by done. simpl. unfold hasName. simpl.
    by rewrite String.eqb_refl.
Qed.

(** X11: [saveLayout] keeps one row per type: the names of the table stay as
    they are when the type has a row, and the type is added at the end when
    it has none. *)
Theorem saveLayout_names generatedId type newData w :
  name <$> pages (snd (saveLayout generatedId type newData w)) =
    if bool_decide (type ∈ name <$> pages w) then name <$> pages w
    else (name <$> pages w) ++ [type].
Proof.
  destruct (findOneBy (hasName type) (pages w)) as [existing|] eqn:Hfind.
  - rewrite (saveLayout_found generatedId type newData w existing Hfind). simpl.
    rewrite bool_decide_eq_true_2.
    + rewrite <- list_fmap_compose. apply list_fmap_ext. intros i page _. simpl.
      apply applyData_name.
    + apply findOneBy_Some in Hfind as [Hin Hname]. apply String.eqb_eq in Hname.
      apply list_elem_of_fmap. by exists existing.
  - rewrite (saveLayout_missing generatedId type newData w Hfind). simpl.
    rewrite bool_decide_eq_false_2; [by rewrite fmap_app|].
    intros (page & Hname & Hin)%list_elem_of_fmap.
    rewrite findOneBy_None in Hfind. specialize (Hfind page Hin).
    unfold hasName in Hfind. rewrite <- Hname, String.eqb_refl in Hfind. done.
Qed.

(** X12: with unique ids in the table, saving the layout of one type leaves the
    layout of every other type as it was. *)
Theorem saveLayout_other_types generatedId type other newData w :
  NoDup (id <$> pages w) → other ≠ type →
  getLayoutByType other (snd (saveLayout generatedId type newData w))
    = getLayoutByType other w ∧
  web_getLayoutByType other (snd (saveLayout generatedId type newData w))
    = web_getLayoutByType other w.
Proof.
  intros Hnodup Hother.
  assert (findOneBy (hasName other) (pages (snd (saveLayout generatedId type newData w)))
          = findOneBy (hasName other) (pages w)) as Hsame.
  { destruct (findOneBy (hasName type) (pages w)) as [existing|] eqn:Hfind.
    - rewrite (saveLayout_found generatedId type newData w existing Hfind). simpl.
      rewrite findOneBy_map by (intros page; unfold hasName; by rewrite applyData_name).
      destruct (findOneBy (hasName other) (pages w)) as [page|] eqn:Hpage; [|done].
      simpl. f_equal. unfold applyData.
      destruct (String.eqb_spec (id page) (id existing)) as [Hid|]; [|done].
      apply findOneBy_Some in Hfind as [Hin1 Hname1].
      apply findOneBy_Some in Hpage as [Hin2 Hname2].
      assert (page = existing) as ->.
      { apply list_elem_of_lookup in Hin1 as [i Hi], Hin2 as [j Hj].
        assert (i = j) as ->.
        { eapply NoDup_lookup; [exact Hnodup| |];
            rewrite list_lookup_fmap; [by rewrite Hi | rewrite Hj; simpl; by rewrite Hid]. }
        congruence. }
      unfold hasName in *. apply String.eqb_eq in Hname1, Hname2. congruence.
    - rewrite (saveLayout_missing generatedId type newData w Hfind). simpl.
      destruct (findOneBy (hasName other) (pages w)) as [page|] eqn:Hpage.
      + by apply findOneBy_app_l.
      + rewrite findOneBy_app_r by done. simpl. unfold hasName. simpl.
        apply not_eq_sym, String.eqb_neq in Hother. by rewrite Hother. }
  unfold getLayoutByType, web_getLayoutByType. by rewrite Hsame.
Qed.

Lemma saveLayout_other_types_witness :
  getLayoutByType "mobile" (snd (saveLayout sampleIds "web" webLayout storedPages))
    = mkLayoutResult (Some "p-mobile") (Some otherLayout) ∧
  getLayoutByType "mobile" (snd (saveLayout sampleIds "tablet" webLayout storedPages))
    = mkLayoutResult (Some "p-mobile") (Some otherLayout).
Proof.
  split.
  - destruct (saveLayout_other_types sampleIds "web" "mobile" webLayout storedPages)
      as [-> _]; [|discriminate|reflexivity].
    repeat (apply NoDup_cons; split;
              [intros Hin; apply list_elem_of_In in Hin; simpl in Hin;
               intuition discriminate|]); apply NoDup_nil_2.
  - destruct (saveLayout_other_types sampleIds "tablet" "mobile" webLayout storedPages)
      as [-> _]; [|discriminate|reflexivity].
    repeat (apply NoDup_cons; split;
              [intros Hin; apply list_elem_of_In in Hin; simpl in Hin;
               intuition discriminate|]); apply NoDup_nil_2.
Defined.

Example layout_defaults :
  getLayoutByType "kiosk" storedPages = mkLayoutResult None (Some consoleDefault) ∧
  web_getLayoutByType "kiosk" storedPages = DefaultLayout webDefault ∧
  getLayoutByType "web" storedPages = mkLayoutResult (Some "p-web") (Some consoleDefault) ∧
  web_getLayoutByType "web" storedPages = StoredLayout (mkPage "p-web" "web" None).
Proof. repeat split. Qed.

(** X13: [getMicropageDetail] answers with the stored micropage without its
    [page_type] and [source] fields, every other field as stored, and with a
    NotFoundError when no micropage has the id. *)
Theorem getMicropageDetail_projection target w :
  match findOneBy (hasId target) (micropages w) with
  | Some stored =>
      ∃ result, getMicropageDetail target w = Ok result ∧
                result !! "page_type" = None ∧ result !! "source" = None ∧
                ∀ field, field ≠ "page_type" → field ≠ "source" →
                         result !! field = stored !! field
  | None =>
      getMicropageDetail target w = Err (mkHttpException NotFoundError "微页面不存在")
  end.
Proof.
  unfold getMicropageDetail.
  destruct (findOneBy (hasId target) (micropages w)) as [stored|]; [|done].
  eexists. split; [reflexivity|]. cbn [excludeFields foldr].
  split; [apply lookup_delete_eq|].
  split; [rewrite lookup_delete_ne by done; apply lookup_delete_eq|].
  intros field H1 H2. by rewrite !lookup_delete_ne.
Qed.

Example getMicropageDetail_sample :
  getMicropageDetail "m-1" storedPages
    = Ok {[ "id" := VStr "m-1"; "name" := VStr "landing"; "content" := VStr "{}" ]} ∧
  getMicropageDetail "m-2" storedPages
    = Err (mkHttpException NotFoundError "微页面不存在").
Proof. split; [by vm_compute | reflexivity]. Qed.

End PageControllerProps.

(** ** Payment configuration updates *)

Module PayconfigAdminProps.
Import PayconfigService PayconfigSamples PayconfigAdmin.

Lemma findOneBy_fmap_key {A} (p : A → bool) (f : A → A) rows :
  (∀ x, p (f x) = p x) → findOneBy p (f <$> rows) = f <$> findOneBy p rows.
Proof.
  intros Hp. unfold findOneBy.
  induction rows as [|r rows IH]; simpl; [done|].
  rewrite Hp. by destruct (p r).
Qed.

(** X14: [updatePayconfig] of an unknown id fails with a NotFoundError, saves
    nothing and emits nothing.  Otherwise it returns the configuration with
    the fields of the update applied, which is then what the table holds
    under that id, and emits one refresh event, for the pay type the
    configuration has after the update. *)
Theorem updatePayconfig_effects target dto w :
  match findOneBy (hasKey target) (repository w) with
  | None =>
      updatePayconfig target dto w
        = (Err (mkHttpException NotFoundError "支付配置不存在"), w)
  | Some stored =>
      ∃ w', updatePayconfig target dto w = (Ok (assign stored dto), w') ∧
            events w' = events w ++ [REFRESH (payType (assign stored dto))] ∧
            findOneBy (hasKey target) (repository w') = Some (assign stored dto) ∧
            ∀ other, other ≠ target →
                     findOneBy (hasKey other) (repository w')
                       = findOneBy (hasKey other) (repository w)
  end.
Proof.
  unfold updatePayconfig.
  destruct (findOneBy (hasKey target) (repository w)) as [stored|] eqn:Hfind; [|done].
  eexists. split; [reflexivity|]. cbn [events repository]. split; [done|].
  pose proof (findOneBy_Some _ _ _ Hfind) as [_ Hstored].
  assert (id stored = target) as Hkey by (by apply String.eqb_eq).
  unfold save. change (id (assign stored dto)) with (id stored). rewrite Hkey.
  assert (hasKey target (assign stored dto) = true) as Hassigned by exact Hstored.
  split.
  - rewrite findOneBy_fmap_key.
    + rewrite Hfind. cbn [fmap option_fmap option_map]. by rewrite Hstored.
    + intros row. by destruct (hasKey target row) eqn:Hrow.
  - intros other Hother. rewrite findOneBy_fmap_key.
    + destruct (findOneBy (hasKey other) (repository w)) as [row|] eqn:Hrow; [|done].
      cbn [fmap option_fmap option_map]. f_equal.
      apply findOneBy_Some in Hrow as [_ Hrow].
      destruct (hasKey target row) eqn:Htarget; [|done].
      apply String.eqb_eq in Hrow, Htarget. congruence.
    + intros row. destruct (hasKey target row) eqn:Hrow; [|done].
      unfold hasKey in *. apply String.eqb_eq in Hrow.
      change (id (assign stored dto)) with (id stored). by rewrite Hkey, Hrow.
Qed.

Lemma getPayconfig_Ok type rows payconfig :
  getPayconfig type rows = Ok payconfig →
  payconfig ∈ rows ∧ payType payconfig = type ∧ isEnable payconfig = BooleanNumber_YES.
Proof.
  unfold getPayconfig.
  destruct (findOneBy _ rows) as [found|] eqn:Hfind; [|done].
  intros [= <-]. apply findOneBy_Some in Hfind as [Hin Hp].
  apply andb_true_iff in Hp as [He Ht]. by apply bool_decide_eq_true in He, Ht.
Qed.

Lemma updateStatus_rows target flag w :
  repository (snd (updateStatus target flag w)) =
    (λ row, if hasKey target row then assign row (statusOnly flag) else row)
      <$> repository w.
Proof.
  unfold updateStatus, updateById.
  destruct (findOneBy (hasKey target) (repository w)) as [stored|] eqn:Hfind; [done|].
  simpl. rewrite findOneBy_None in Hfind.
  symmetry. etransitivity; [|apply list_fmap_id].
  apply list_fmap_ext. intros i row Hrow. rewrite Hfind; [done|].
  by apply list_elem_of_lookup_2 in Hrow.
Qed.

(** X15: switching a configuration off and looking one up: [getPayconfig] never
    answers with the configuration that was switched off. *)
Theorem updateStatus_off_getPayconfig target type w payconfig :
  getPayconfig type (repository (snd (updateStatus target BooleanNumber_NO w)))
    = Ok payconfig →
  id payconfig ≠ target.
Proof.
  intros Hget Hid.
  apply getPayconfig_Ok in Hget as (Hin & _ & Henabled).
  rewrite updateStatus_rows in Hin.
  apply list_elem_of_fmap in Hin as (row & -> & _).
  destruct (hasKey target row) eqn:Hrow.
  - simpl in Henabled. discriminate Henabled.
  - unfold hasKey in Hrow. apply String.eqb_neq in Hrow. done.
Qed.

Lemma updateStatus_off_getPayconfig_witness :
  getPayconfig 1 (repository (snd (updateStatus "p-3" BooleanNumber_NO
                                     (mkWorld [wechatOff; alipayOn; wechatOn] []))))
    = Err (mkHttpException NotFoundError "支付配置不存在") ∧
  getPayconfig 2 (repository (snd (updateStatus "p-3" BooleanNumber_NO
                                     (mkWorld [wechatOff; alipayOn; wechatOn] []))))
    = Ok alipayOn ∧
  id alipayOn ≠ "p-3".
Proof.
  split; [reflexivity|]. split; [reflexivity|].
  exact (updateStatus_off_getPayconfig "p-3" 2
           (mkWorld [wechatOff; alipayOn; wechatOn] []) alipayOn eq_refl).
Defined.

(** X16: switching a stored configuration on: a lookup of its pay type then
    finds an enabled configuration of that type. *)
Theorem updateStatus_on_getPayconfig target w stored :
  findOneBy (hasKey target) (repository w) = Some stored →
  ∃ payconfig,
    getPayconfig (payType stored)
                 (repository (snd (updateStatus target BooleanNumber_YES w)))
      = Ok payconfig ∧
    payType payconfig = payType stored ∧ isEnable payconfig = BooleanNumber_YES.
Proof.
  intros Hfind. rewrite updateStatus_rows.
  set (rows := (λ row, if hasKey target row
                       then assign row (statusOnly BooleanNumber_YES) else row)
                 <$> repository w).
  destruct (getPayconfig (payType stored) rows) as [payconfig|e] eqn:Hget.
  - apply getPayconfig_Ok in Hget as (_ & Htype & Henabled). by exists payconfig.
  - exfalso. unfold getPayconfig in Hget.
    destruct (findOneBy _ rows) as [found|] eqn:Hnone; [done|].
    rewrite findOneBy_None in Hnone.
    apply findOneBy_Some in Hfind as [Hin Hkey].
    assert (assign stored (statusOnly BooleanNumber_YES) ∈ rows) as Hupdated.
    { apply list_elem_of_fmap. exists stored. by rewrite Hkey. }
    specialize (Hnone _ Hupdated).
    cbn [assign isEnable payType statusOnly dto_isEnable dto_payType default] in Hnone.
    rewrite !bool_decide_eq_true_2 in Hnone by done. discriminate Hnone.
Qed.

Lemma updateStatus_on_getPayconfig_witness :
  ∃ payconfig,
    getPayconfig 1 (repository (snd (updateStatus "p-1" BooleanNumber_YES
                                       (mkWorld [wechatOff; alipayOn] []))))
      = Ok payconfig ∧
    payType payconfig = 1 ∧ isEnable payconfig = BooleanNumber_YES.
Proof.
  exact (updateStatus_on_getPayconfig "p-1" (mkWorld [wechatOff; alipayOn] [])
           wechatOff eq_refl).
Defined.

Example updatePayconfig_sample :
  updatePayconfig "p-2" (mkUpdatePayconfigDto (Some "Alipay+") (Some 5) None None None None)
                  (mkWorld [wechatOff; alipayOn] [])
  = (Ok (mkPayconfig "p-2" "Alipay+" 5 1 "ali.png" 1 0),
     mkWorld [wechatOff; mkPayconfig "p-2" "Alipay+" 5 1 "ali.png" 1 0] [REFRESH 5]).
Proof. reflexivity. Qed.

End PayconfigAdminProps.

(** ** Helpers of the web front end *)

Module WebUtilsProps.
Import WebUtils.

Example isActive_samples :
  isActive "/" "/" = true ∧ isActive "/docs" "/" = false ∧
  isActive "/docs/api" "/docs" = true ∧ isActive "/docs-old" "/docs" = false ∧
  isActive "/docs/api" "/docs/" = true ∧ isActive "/x" "/pages/index/index" = true.
Proof. repeat split. Qed.

Example indexOf_samples :
  indexOf "https://cdn/x.png" "http" = 0 ∧ indexOf "uploads/x.png" "http" = -1 ∧
  indexOf "a/http/b" "http" = 2 ∧ indexOf "" "http" = -1.
Proof. repeat split. Qed.

Lemma indexOf_zero s needle :
  needle ≠ "" → (indexOf s needle = 0 ↔ startsWith s needle = true).
Proof.
  intros Hneedle. unfold indexOf, startsWith.
  destruct s as [|c s].
  - destruct needle; [congruence|]. simpl. split; discriminate.
  - change (String.index 0 needle (String c s))
      with (if String.prefix needle (String c s) then Some 0%nat
            else match String.index 0 needle s with
                 | Some n => Some (S n)
                 | None => None
                 end).
    destruct (String.prefix needle (String c s)); [split; reflexivity|].
    destruct (String.index 0 needle s); split; try discriminate; lia.
Qed.

Lemma prefix_nil s : String.prefix "" s = true.
Proof. by destruct s. Qed.

Lemma prefix_cons c a c' s :
  String.prefix (String c a) (String c' s) =
    if ascii_dec c c' then String.prefix a s else false.
Proof. reflexivity. Qed.

Lemma prefix_trans a b s :
  String.prefix a b = true → String.prefix b s = true → String.prefix a s = true.
Proof.
  revert a b. induction s as [|c'' s IH]; intros a b Hab Hbs.
  - destruct b as [|c' b]; [|discriminate Hbs]. by destruct a.
  - destruct a as [|c a]; [reflexivity|].
    destruct b as [|c' b]; [discriminate Hab|].
    rewrite prefix_cons in *.
    destruct (ascii_dec c c') as [->|]; [|discriminate Hab].
    destruct (ascii_dec c' c''); [|discriminate Hbs].
    by apply (IH a b).
Qed.

Lemma prefix_app a b : String.prefix a (a +:+ b) = true.
Proof.
  induction a as [|c a IH]; [apply prefix_nil|].
  change (String c a +:+ b) with (String c (a +:+ b)). rewrite prefix_cons.
  by destruct (ascii_dec c c).
Qed.

(** X17: [getImageUrl] leaves a url that starts with [http] as it is and puts
    the base url in front of every other url, also of one that contains
    [http] further in. *)
Theorem getImageUrl_absolute apiBaseUrl url :
  getImageUrl apiBaseUrl url =
    if startsWith url "http" then url else apiBaseUrl +:+ "/" +:+ url.
Proof.
  unfold getImageUrl.
  pose proof (indexOf_zero url "http" ltac:(done)) as Hzero.
  destruct (startsWith url "http").
  - by rewrite (proj2 Hzero eq_refl).
  - destruct (Z.eqb_spec (indexOf url "http") 0) as [Hz|]; [|done].
    apply Hzero in Hz. discriminate Hz.
Qed.

Example getImageUrl_samples :
  getImageUrl "https://api" "https://cdn/x.png" = "https://cdn/x.png" ∧
  getImageUrl "https://api" "uploads/x.png" = "https://api/uploads/x.png" ∧
  getImageUrl "https://api" "files/http.png" = "https://api/files/http.png".
Proof. repeat split. Qed.

(** X18: every link that [isExternalLink] accepts is navigated to as an
    external one; [navigateToWeb] also does so for a link without a path,
    which [isExternalLink] rejects. *)
Theorem navigateToWeb_external_links path :
  (isExternalLink path = true → navigateToWeb_external path = true) ∧
  isExternalLink None = false ∧ navigateToWeb_external None = true.
Proof.
  split; [|done].
  destruct path as [path|]; [|done]. simpl.
  destruct (String.eqb path ""); [done|]. intros Hstarts.
  assert (startsWith path "http" = true) as Hhttp.
  { apply orb_true_iff in Hstarts as [Hs|Hs]; unfold startsWith in *;
      (eapply prefix_trans; [|exact Hs]); reflexivity. }
  apply (indexOf_zero path "http" ltac:(done)) in Hhttp. by rewrite Hhttp.
Qed.

Example navigateToWeb_inner_http :
  isExternalLink (Some "/docs/http-api") = false ∧
  navigateToWeb_external (Some "/docs/http-api") = true.
Proof. split; reflexivity. Qed.

(** X19: [getPluginKey] never answers with an empty key; a given plugin name
    is the answer whatever the application offers, and nothing is written to
    the console then. *)
Theorem getPluginKey_nonempty pluginName nuxt :
  fst (getPluginKey pluginName nuxt) ≠ "" ∧
  (∀ given, pluginName = Some given → given ≠ "" →
            getPluginKey pluginName nuxt = (given, [])).
Proof.
  assert (∀ s s', nonEmpty s = Some s' → s = Some s' ∧ s' ≠ "") as Hnonempty.
  { intros [s|] s'; simpl; [|done].
    destruct (String.eqb_spec s ""); [done|]. by intros [= <-]. }
  split.
  - unfold getPluginKey.
    destruct (nonEmpty pluginName) as [given|] eqn:Hgiven.
    + by apply Hnonempty in Hgiven as [_ Hne].
    + destruct nuxt as [| |[|[key|]|]]; simpl; try done.
      destruct (String.eqb_spec key ""); simpl; done.
  - intros given -> Hgiven. unfold getPluginKey. simpl.
    apply String.eqb_neq in Hgiven. by rewrite Hgiven.
Qed.

(** X20: [isActive]: a path is active on its own route and on every route below
    it; the root path is active on the root route only. *)
Theorem isActive_routes currentPath path rest :
  isActive path path = true ∧
  (path ≠ "/" → isActive (path +:+ "/" +:+ rest) path = true) ∧
  (isActive currentPath "/" = true ↔ currentPath = "/").
Proof.
  split; [|split].
  - unfold isActive. rewrite String.eqb_refl.
    by destruct (String.eqb path "/").
  - intros Hroot. unfold isActive.
    apply String.eqb_neq in Hroot. rewrite Hroot. simpl.
    destruct (String.eqb (path +:+ "/" +:+ rest) path); [done|].
    destruct (String.eqb path "/pages/index/index"); [done|].
    unfold startsWith. destruct (endsWithChar path "/").
    + apply prefix_app.
    + rewrite <- append_assoc. apply prefix_app.
  - unfold isActive. simpl.
    destruct (String.eqb_spec currentPath "/"); simpl; split; done.
Qed.

End WebUtilsProps.
